(** * Page objects over a browser-automation driver

    A shallow embedding of the page-object classes of the repository
    ([TablePage], [FileDownloadPage], [FileUploadPage], [WindowsPage]) and
    of the helper [dismissAnyAds] of its scenarios.

    The page objects forward to a browser-automation driver.  The driver,
    the browser and the site under test are not part of the repository; they
    appear here as small executable models of the behaviour their
    documentation gives (what a locator resolves to, when a read waits and
    times out, when an event reaches a listener), kept apart from the
    page-object code, which is transcribed method by method. *)

From Stdlib Require Import List Bool Arith ZArith Lia Ascii String.
From Stdlib Require Import DecimalString DecimalZ DecimalPos Sorted Permutation RelationClasses.
Import ListNotations.

(** ** Script values

    Strings are sequences of code units; a code unit is an [ascii] (the
    model keeps the code units below 256).  [undefined] and [null] are the
    [None] of an [option]. *)
Module Js.

Local Open Scope string_scope.

(** [String.prototype.includes]: some suffix of [hay] starts with [needle]. *)
Fixpoint includes (hay needle : string) : bool :=
  String.prefix needle hay
  || match hay with
     | EmptyString => false
     | String _ rest => includes rest needle
     end.

(** White space of [String.prototype.trim], among the code units below 256:
    TAB, LF, VT, FF, CR, SPACE and NBSP. *)
Definition is_white_space (c : ascii) : bool :=
  let n := nat_of_ascii c in
  (Nat.leb 9 n && Nat.leb n 13) || Nat.eqb n 32 || Nat.eqb n 160.

Fixpoint trimStart (s : string) : string :=
  match s with
  | EmptyString => EmptyString
  | String c rest => if is_white_space c then trimStart rest else s
  end.

Fixpoint trimEnd (s : string) : string :=
  match s with
  | EmptyString => EmptyString
  | String c rest =>
      match trimEnd rest with
      | EmptyString => if is_white_space c then EmptyString else String c EmptyString
      | kept => String c kept
      end
  end.

Definition trim (s : string) : string := trimEnd (trimStart s).

(** [value || empty] on a [string | null], [empty] the empty string:
    [null] and the empty string are falsy. *)
Definition or_empty (v : option string) : string :=
  match v with
  | Some s => s
  | None => EmptyString
  end.

(** [value?.includes(text)] used as a condition: [undefined] is falsy. *)
Definition opt_includes (v : option string) (needle : string) : bool :=
  match v with
  | Some s => includes s needle
  | None => false
  end.

(** [array[index]] on an array of strings: [undefined] out of range. *)
Definition index {A : Type} (xs : list A) (i : nat) : option A := nth_error xs i.

(** [array[index]], [index] any integer: [undefined] below 0 and from the
    length on. *)
Definition item {A : Type} (xs : list A) (i : Z) : option A :=
  if (i <? 0)%Z then None else nth_error xs (Z.to_nat i).

(** [!value] on a string: only the empty string is falsy. *)
Definition falsy (s : string) : bool := String.eqb s EmptyString.

(** The order of [Array.prototype.sort] without a comparator: [undefined]
    goes last, strings compare by code units. *)
Definition sort_le (x y : option string) : bool :=
  match x, y with
  | _, None => true
  | None, Some _ => false
  | Some a, Some b => String.leb a b
  end.

Fixpoint sort_insert (x : option string) (sorted : list (option string))
  : list (option string) :=
  match sorted with
  | [] => [x]
  | y :: rest => if sort_le x y then x :: sorted else y :: sort_insert x rest
  end.

(** The sorted sequence is determined by the order alone (strings that
    compare equal are equal), so any sorting algorithm gives this list. *)
Fixpoint sort (xs : list (option string)) : list (option string) :=
  match xs with
  | [] => []
  | x :: rest => sort_insert x (sort rest)
  end.

Definition reverse (xs : list (option string)) : list (option string) := rev xs.

Definition hex_digit (n : nat) : ascii :=
  ascii_of_nat (if Nat.ltb n 10 then 48 + n else 87 + n).

Definition backslash : ascii := ascii_of_nat 92.

(** [QuoteJSONString], one code unit. *)
Definition json_escape (c : ascii) : string :=
  let n := nat_of_ascii c in
  if Nat.eqb n 8 then "\b"
  else if Nat.eqb n 9 then "\t"
  else if Nat.eqb n 10 then "\n"
  else if Nat.eqb n 12 then "\f"
  else if Nat.eqb n 13 then "\r"
  else if Nat.eqb n 34 then String backslash (String c EmptyString)
  else if Nat.eqb n 92 then String backslash (String backslash EmptyString)
  else if Nat.ltb n 32 then
    "\u00" ++ String (hex_digit (n / 16)) (String (hex_digit (n mod 16)) EmptyString)
  else String c EmptyString.

Fixpoint json_escape_all (s : string) : string :=
  match s with
  | EmptyString => EmptyString
  | String c rest => json_escape c ++ json_escape_all rest
  end.

Definition dquote : ascii := ascii_of_nat 34.

Definition json_string (s : string) : string :=
  String dquote (json_escape_all s ++ String dquote EmptyString).

(** An array element: [undefined] is written [null]. *)
Definition json_element (v : option string) : string :=
  match v with
  | Some s => json_string s
  | None => "null"
  end.

Fixpoint json_elements (xs : list (option string)) : string :=
  match xs with
  | [] => EmptyString
  | [x] => json_element x
  | x :: rest => json_element x ++ "," ++ json_elements rest
  end.

(** [JSON.stringify] on an array of strings and [undefined]. *)
Definition JSON_stringify (xs : list (option string)) : string :=
  "[" ++ json_elements xs ++ "]".

End Js.

(** ** Outcomes of awaited calls

    An awaited call either yields a value or throws.  The driver throws
    [TimeoutError] when a wait does not complete in its window, and the
    error tells which wait it was: an action or a read on a locator
    ([click], [textContent], [innerText]), [waitForEvent],
    [waitForLoadState] or [waitForFunction].  [Error] is any other error,
    the script's own [new Error(message)] among them. *)
Inductive Waited : Type :=
| for_locator
| for_event
| for_load_state
| for_function.

Inductive JsError : Type :=
| TimeoutError (waited : Waited)
| Error (message : string).

Inductive Outcome (A : Type) : Type :=
| Ok (value : A)
| Throw (e : JsError).

Arguments Ok {A} value.
Arguments Throw {A} e.

(** ** Locators

    A locator is a deferred query: it holds no element, and every use
    resolves it against the document of that moment.  [D] is the type of
    documents, [E] the type of the elements the query selects. *)
Module Locator.

Class Element (E : Type) : Type := node_textContent : E -> string.

Definition Locator (D E : Type) : Type := D -> list E.

(** A read awaited against the document [D]. *)
Definition Read (D A : Type) : Type := D -> Outcome A.

Definition ret {D A : Type} (a : A) : Read D A := fun _ => Ok a.

Definition bind {D A B : Type} (m : Read D A) (k : A -> Read D B) : Read D B :=
  fun d =>
    match m d with
    | Ok a => k a d
    | Throw e => Throw e
    end.

(** The match a position selects: positions count from 0, and a negative
    position counts back from the last match, [-1] being the last one (the
    driver's [last()] is [nth(-1)]). *)
Definition nth_match {E : Type} (matches : list E) (i : Z) : option E :=
  if (i <? 0)%Z
  then if (Z.of_nat (List.length matches) + i <? 0)%Z then None
       else nth_error matches (Z.to_nat (Z.of_nat (List.length matches) + i))
  else nth_error matches (Z.to_nat i).

Section Queries.
Context {D E : Type}.

(** The driver's [locator.count()]: the number of matches of the moment,
    without waiting. *)
Definition count (l : Locator D E) : Read D Z :=
  fun d => Ok (Z.of_nat (List.length (l d))).

(** [locator.nth(index)]. *)
Definition nth (l : Locator D E) (index : Z) : Locator D E :=
  fun d =>
    match nth_match (l d) index with
    | Some e => [e]
    | None => []
    end.

(** [locator.locator(selector)]: the matches of [selector] below each
    element of [l], [inner] giving them for one element. *)
Definition locator {E' : Type} (l : Locator D E) (inner : E -> list E')
  : Locator D E' :=
  fun d => flat_map inner (l d).

(** [locator.all()]: one [nth] locator per match of the moment. *)
Definition all (l : Locator D E) : Read D (list (Locator D E)) :=
  fun d => Ok (map (fun i => nth l (Z.of_nat i)) (seq 0 (List.length (l d)))).

Context `{Element E}.

(** The driver's [locator.textContent()], a locate-and-act: it waits for
    the locator to resolve to one element, and a wait that does not
    complete in its window is a [TimeoutError].  With several matches the
    strict mode refuses.  An element's text is never [null]. *)
Definition textContent (l : Locator D E) : Read D (option string) :=
  fun d =>
    match l d with
    | [] => Throw (TimeoutError for_locator)
    | [e] => Ok (Some (node_textContent e))
    | _ :: _ :: _ => Throw (Error "strict mode violation")
    end.

(** The driver's [locator.allTextContents()]: the text of every match of
    the moment, without waiting. *)
Definition allTextContents (l : Locator D E) : Read D (list string) :=
  fun d => Ok (map (fun e => Js.or_empty (Some (node_textContent e))) (l d)).
End Queries.

End Locator.

Declare Scope read_scope.
Delimit Scope read_scope with read.
Notation "x <- m ;; k" := (Locator.bind m (fun x => k))
  (at level 61, m at next level, right associativity) : read_scope.

(** ** The table surface

    The body rows of [table#table1] as the browser holds them.  A row is
    the sequence of its child nodes: text nodes (the white space between
    cells) and elements, each element with its tag and text content. *)
Module Dom.

Inductive node : Type :=
| text_node (data : string)
| element (tag : string) (text : string).

Definition node_text (n : node) : string :=
  match n with
  | text_node data => data
  | element _ text => text
  end.

Definition Row : Type := list node.

Inductive Cell : Type := td (text : string).

Definition cell_text (c : Cell) : string := let 'td text := c in text.

(** The matches of the selector ["td"] below a row. *)
Definition select_td (r : Row) : list Cell :=
  flat_map (fun n =>
              match n with
              | element tag text => if String.eqb tag "td" then [td text] else []
              | text_node _ => []
              end) r.

(** [tr.textContent]: the text of all the nodes below the row, in order. *)
Definition row_text (r : Row) : string := String.concat EmptyString (map node_text r).

(** What the selector ["tbody tr"] below [table#table1] resolves to. *)
Definition Table : Type := list Row.

#[export] Instance Row_Element : Locator.Element Row := row_text.
#[export] Instance Cell_Element : Locator.Element Cell := cell_text.

(** A row of plain cells, one [td] per text. *)
Definition tr (cells : list string) : Row := map (element "td") cells.

End Dom.

(** ** TablePage *)
Module TablePage.
Import Locator Dom.
Local Open Scope read_scope.
Local Open Scope Z_scope.

(** The locator fields the constructor sets, those of the table body:
    [tableRows] is ["tbody tr"] and [tableCells] is ["tbody td"], both
    below [table#table1]. *)
Record TablePage : Type := {
  tableRows : Locator Table Row;
  tableCells : Locator Table Cell
}.

Definition new : TablePage :=
  {| tableRows := fun table => table;
     tableCells := fun table => flat_map select_td table |}.

Section Methods.
Variable this : TablePage.

Definition getRowCount : Read Table Z := count this.(tableRows).

Definition getRow (index : Z) : Locator Table Row := nth this.(tableRows) index.

Definition getCellText (rowIndex colIndex : Z) : Read Table string :=
  let row := getRow rowIndex in
  let cell := nth (locator row select_td) colIndex in
  text <- textContent cell ;;
  ret (Js.or_empty text).

Definition getRowData (rowIndex : Z) : Read Table (list string) :=
  let row := getRow rowIndex in
  cells <- allTextContents (locator row select_td) ;;
  ret (map Js.trim cells).

(** The body of [for (const row of rows)], [data] being the array pushed
    to. *)
Fixpoint getAllTableData_loop (rows : list (Locator Table Row))
         (data : list (list string)) : Read Table (list (list string)) :=
  match rows with
  | [] => ret data
  | row :: rest =>
      cells <- allTextContents (locator row select_td) ;;
      getAllTableData_loop rest (data ++ [map Js.trim cells])
  end.

Definition getAllTableData : Read Table (list (list string)) :=
  rows <- all this.(tableRows) ;;
  getAllTableData_loop rows [].

(** [for (let i = 0; i < rowCount; i++)], with [remaining = rowCount - i]. *)
Fixpoint findRowIndexByCellContent_loop (columnIndex : Z) (searchText : string)
         (remaining i : nat) : Read Table Z :=
  match remaining with
  | O => ret (-1)
  | S remaining' =>
      cellText <- getCellText (Z.of_nat i) columnIndex ;;
      if Js.includes cellText searchText then ret (Z.of_nat i)
      else findRowIndexByCellContent_loop columnIndex searchText remaining' (S i)
  end.

Definition findRowIndexByCellContent (columnIndex : Z) (searchText : string)
  : Read Table Z :=
  rowCount <- getRowCount ;;
  findRowIndexByCellContent_loop columnIndex searchText (Z.to_nat rowCount) 0.

(** [for (let i = 0; i < rows.length; i++)], [rows] being the rows from
    [rows[i]] on. *)
Fixpoint findRowByContent_loop (searchText : string)
         (rows : list (Locator Table Row)) (i : nat) : Read Table Z :=
  match rows with
  | [] => ret (-1)
  | row :: rest =>
      rowText <- textContent row ;;
      if Js.opt_includes rowText searchText then ret (Z.of_nat i)
      else findRowByContent_loop searchText rest (S i)
  end.

Definition findRowByContent (searchText : string) : Read Table Z :=
  rows <- all this.(tableRows) ;;
  findRowByContent_loop searchText rows 0.

Definition isColumnSortedAscending (columnIndex : nat) : Read Table bool :=
  data <- getAllTableData ;;
  let columnValues := map (fun row => Js.index row columnIndex) data in
  let sorted := Js.sort columnValues in
  ret (String.eqb (Js.JSON_stringify columnValues) (Js.JSON_stringify sorted)).

Definition isColumnSortedDescending (columnIndex : nat) : Read Table bool :=
  data <- getAllTableData ;;
  let columnValues := map (fun row => Js.index row columnIndex) data in
  let sorted := Js.reverse (Js.sort columnValues) in
  ret (String.eqb (Js.JSON_stringify columnValues) (Js.JSON_stringify sorted)).

(** The declared element type is [string]; [row[columnIndex]] is
    [undefined] where the row is shorter. *)
Definition getColumnData (columnIndex : nat) : Read Table (list (option string)) :=
  data <- getAllTableData ;;
  ret (map (fun row => Js.index row columnIndex) data).
End Methods.

End TablePage.

(** ** The driver session: commands, events and listeners

    A scenario is one sequential flow of control.  [waitForEvent] registers
    a listener at once and hands back a promise; a click makes the page
    emit an event either before the click returns or after it; an event
    reaches the listeners of its kind that are registered when it is
    emitted, and reaches nobody otherwise.  The session also keeps what the
    scenario did ([trace]) and every error thrown on the way, caught or not
    ([thrown]). *)
Module Driver.

Inductive EventKind : Type := download | page | filechooser.

Definition EventKind_eqb (x y : EventKind) : bool :=
  match x, y with
  | download, download | page, page | filechooser, filechooser => true
  | _, _ => false
  end.

(** What an event carries: a [Download], with what awaiting its [path()]
    gives (the path of the saved file, or the error of a failed or
    cancelled download); a new [Page]; a [FileChooser]. *)
Inductive Payload : Type :=
| Download (suggestedFilename : string) (path : Outcome string)
| NewPage (url : string) (loads : bool)
| FileChooser (input : string).

Definition kind_of (e : Payload) : EventKind :=
  match e with
  | Download _ _ => download
  | NewPage _ _ => page
  | FileChooser _ => filechooser
  end.

Inductive Timing : Type := before_click_returns | after_click_returns.

(** What the page does when an element is clicked. *)
Record Reaction : Type := {
  emits : option Payload;
  timing : Timing
}.

Inductive Target : Type :=
| getByRole (role name : string)
| getByTestId (testId : string)
| getByText (text : string)
| closeAdButton.

(** What the scenario did, in program order. *)
Inductive Step : Type :=
| Subscribed (kind : EventKind) (promise : nat)
| Clicked (target : Target)
| AwaitedClick (target : Target)
| AwaitedPromise (promise : nat)
| AwaitedAll (promise : nat) (target : Target)
| AwaitedLoadState (url : string)
| SetFiles (chooser : Payload) (path : string).

(** The content of a file: a [Buffer] of bytes. *)
Definition Buffer : Type := list Byte.byte.

Record Session : Type := {
  listeners : list (nat * EventKind);
  settled : list (nat * Payload);
  in_flight : list Payload;
  next_promise : nat;
  trace : list Step;
  thrown : list JsError
}.

(** A fresh browser context. *)
Definition start : Session :=
  {| listeners := []; settled := []; in_flight := []; next_promise := 0; trace := [];
     thrown := [] |}.

Definition Task (A : Type) : Type := Session -> Outcome A * Session.

Definition ret {A : Type} (a : A) : Task A := fun s => (Ok a, s).

Definition note (e : JsError) (s : Session) : Session :=
  {| listeners := s.(listeners); settled := s.(settled); in_flight := s.(in_flight);
     next_promise := s.(next_promise); trace := s.(trace); thrown := s.(thrown) ++ [e] |}.

(** An error is thrown, by an awaited call of the driver or by the script
    itself ([throw new Error(...)]). *)
Definition throw {A : Type} (e : JsError) : Task A := fun s => (Throw e, note e s).

Definition bind {A B : Type} (m : Task A) (k : A -> Task B) : Task B :=
  fun s =>
    match m s with
    | (Ok a, s') => k a s'
    | (Throw e, s') => (Throw e, s')
    end.

(** [try { await m } catch {}]. *)
Definition try_catch (m : Task unit) : Task unit :=
  fun s =>
    match m s with
    | (Ok a, s') => (Ok a, s')
    | (Throw _, s') => (Ok tt, s')
    end.

Definition log (step : Step) (s : Session) : Session :=
  {| listeners := s.(listeners); settled := s.(settled); in_flight := s.(in_flight);
     next_promise := s.(next_promise); trace := s.(trace) ++ [step]; thrown := s.(thrown) |}.

Definition listens (k : EventKind) (l : nat * EventKind) : bool := EventKind_eqb (snd l) k.

(** The event [e] is emitted: the listeners of its kind that are
    registered at this moment settle with it; with none registered the
    event is lost. *)
Definition deliver (e : Payload) (s : Session) : Session :=
  {| listeners := filter (fun l => negb (listens (kind_of e) l)) s.(listeners);
     settled := map (fun l => (fst l, e)) (filter (listens (kind_of e)) s.(listeners))
                  ++ s.(settled);
     in_flight := s.(in_flight);
     next_promise := s.(next_promise);
     trace := s.(trace);
     thrown := s.(thrown) |}.

(** The events emitted since the last suspension arrive, oldest first. *)
Definition flush (s : Session) : Session :=
  fold_left (fun acc e => deliver e acc) s.(in_flight)
    {| listeners := s.(listeners); settled := s.(settled); in_flight := [];
       next_promise := s.(next_promise); trace := s.(trace); thrown := s.(thrown) |}.

Definition emit_later (e : Payload) (s : Session) : Session :=
  {| listeners := s.(listeners); settled := s.(settled);
     in_flight := s.(in_flight) ++ [e];
     next_promise := s.(next_promise); trace := s.(trace); thrown := s.(thrown) |}.

(** The listener of the promise [p] is taken off: its window has run out. *)
Definition unlisten (p : nat) (s : Session) : Session :=
  {| listeners := filter (fun l => negb (Nat.eqb (fst l) p)) s.(listeners);
     settled := s.(settled); in_flight := s.(in_flight);
     next_promise := s.(next_promise); trace := s.(trace); thrown := s.(thrown) |}.

Fixpoint lookup (p : nat) (entries : list (nat * Payload)) : option Payload :=
  match entries with
  | [] => None
  | (q, e) :: rest => if Nat.eqb p q then Some e else lookup p rest
  end.

(** The promises nobody awaits.  A listener that is still registered when
    the events on their way have arrived was never awaited to its end (an
    awaited one is settled or taken off).  The page staying open, its
    window runs out and its promise rejects by itself with the timeout of
    [waitForEvent]; nothing handles the rejection. *)
Definition unhandled_rejections (s : Session) : list (nat * JsError) :=
  map (fun l => (fst l, TimeoutError for_event)) (flush s).(listeners).

Section Site.
(** The page under test: what a click on each target causes, [None]
    where the target never shows up. *)
Variable site : Target -> option Reaction.
(** The files on disk. *)
Variable fs : string -> option Buffer.
(** The decoding of the encoding ["utf-8"]. *)
Variable utf8 : Buffer -> string.

(** The driver's [waitForEvent(kind)], not awaited: the listener is
    registered when the call returns, and the promise resolves with the
    next event of the kind. *)
Definition waitForEvent (k : EventKind) : Task nat :=
  fun s =>
    let p := s.(next_promise) in
    (Ok p,
     {| listeners := s.(listeners) ++ [(p, k)]; settled := s.(settled);
        in_flight := s.(in_flight); next_promise := S p;
        trace := s.(trace) ++ [Subscribed k p]; thrown := s.(thrown) |}).

(** The driver's [locator.click()] is issued; the value is what awaiting
    it will give, the timeout of the locator when the target never shows
    up.  The page reacts as [site] says. *)
Definition click_start (t : Target) : Task (Outcome unit) :=
  fun s =>
    let s1 := log (Clicked t) (flush s) in
    match site t with
    | None => (Ok (Throw (TimeoutError for_locator)), s1)
    | Some r =>
        match r.(emits) with
        | None => (Ok (Ok tt), s1)
        | Some e =>
            match r.(timing) with
            | before_click_returns => (Ok (Ok tt), deliver e s1)
            | after_click_returns => (Ok (Ok tt), emit_later e s1)
            end
        end
    end.

Definition await_click (t : Target) (r : Outcome unit) : Task unit :=
  fun s =>
    match r with
    | Ok _ => (Ok tt, log (AwaitedClick t) s)
    | Throw e => throw e (log (AwaitedClick t) s)
    end.

(** [await locator.click()]. *)
Definition click (t : Target) : Task unit :=
  bind (click_start t) (await_click t).

(** The promise [p] is looked at when the events have arrived: it is
    resolved, or its window runs out and it rejects. *)
Definition settle (p : nat) (s : Session) : Outcome Payload * Session :=
  match lookup p s.(settled) with
  | Some e => (Ok e, s)
  | None => throw (TimeoutError for_event) (unlisten p s)
  end.

(** [await promise], [promise] from [waitForEvent]. *)
Definition await_promise (p : nat) : Task Payload :=
  fun s => settle p (log (AwaitedPromise p) (flush s)).

(** [await Promise.all([promise, click])], keeping the first component.
    The join throws the rejection that comes first and drops a later one.
    When the click fails while the promise of the listener is still
    pending, both reject, each at the end of its own window;
    [listener_first] tells that the window of the listener ends first. *)
Definition Promise_all (listener_first : bool) (p : nat) (t : Target) (r : Outcome unit)
  : Task Payload :=
  fun s =>
    let s1 := log (AwaitedAll p t) (flush s) in
    match r with
    | Ok _ => settle p s1
    | Throw e =>
        match lookup p s1.(settled) with
        | Some _ => throw e s1
        | None =>
            if listener_first
            then (Throw (TimeoutError for_event),
                  note e (note (TimeoutError for_event) (unlisten p s1)))
            else (Throw e, note (TimeoutError for_event) (note e (unlisten p s1)))
        end
    end.

(** [await newPage.waitForLoadState(...)]. *)
Definition waitForLoadState (pg : Payload) : Task unit :=
  fun s =>
    match pg with
    | NewPage url loads =>
        if loads then (Ok tt, log (AwaitedLoadState url) s)
        else throw (TimeoutError for_load_state) (log (AwaitedLoadState url) s)
    | _ => (Ok tt, s)
    end.

(** [await download.path()]: the path of the saved file; a failed or
    cancelled download makes it throw. *)
Definition download_path (d : Payload) : Task string :=
  match d with
  | Download _ (Ok path) => ret path
  | Download _ (Throw e) => throw e
  | _ => throw (Error "download.path is not a function")
  end.

(** [fs.readFileSync(path)]: the bytes of the file. *)
Definition readFileSync (path : string) : Task Buffer :=
  match fs path with
  | Some content => ret content
  | None => throw (Error "ENOENT: no such file or directory")
  end.

(** [fs.readFileSync(path, "utf-8")]: the bytes of the file, decoded. *)
Definition readFileSync_utf8 (path : string) : Task string :=
  bind (readFileSync path) (fun content => ret (utf8 content)).

(** [await fileChooser.setFiles(path)]. *)
Definition setFiles (chooser : Payload) (path : string) : Task unit :=
  fun s =>
    match fs path with
    | Some _ => (Ok tt, log (SetFiles chooser path) s)
    | None => throw (Error "ENOENT: no such file or directory") s
    end.

(** [await page.waitForFunction(predicate, ...)], [holds] telling whether
    the predicate comes true in the window. *)
Definition waitForFunction (holds : bool) : Task unit :=
  fun s => if holds then (Ok tt, s) else throw (TimeoutError for_function) s.
End Site.

End Driver.

Declare Scope task_scope.
Delimit Scope task_scope with task.
Notation "x <- m ;; k" := (Driver.bind m (fun x => k))
  (at level 61, m at next level, right associativity) : task_scope.
Notation "m ;; k" := (Driver.bind m (fun _ => k))
  (at level 61, right associativity) : task_scope.

(** ** FileDownloadPage *)
Module FileDownloadPage.
Import Driver.
Local Open Scope task_scope.

Section Methods.
Variable site : Target -> option Reaction.
Variable fs : string -> option Buffer.
Variable utf8 : Buffer -> string.

Definition downloadFileByName (filename : string) : Task Payload :=
  downloadPromise <- waitForEvent download ;;
  click site (getByRole "link" filename) ;;
  download <- await_promise downloadPromise ;;
  ret download.

Definition downloadAndReadText (filename : string) : Task string :=
  download <- downloadFileByName filename ;;
  filePath <- download_path download ;;
  if Js.falsy filePath then throw (Error "Download failed - no path returned")
  else
    content <- readFileSync_utf8 fs utf8 filePath ;;
    ret content.

Definition downloadAndReadBuffer (filename : string) : Task Buffer :=
  download <- downloadFileByName filename ;;
  filePath <- download_path download ;;
  if Js.falsy filePath then throw (Error "Download failed - no path returned")
  else readFileSync fs filePath.

(** The download of scenario TC-D02, with [Promise.all]; [listener_first]
    as in [Promise_all]. *)
Definition TC_D02_download (listener_first : bool) (filename : string) : Task Payload :=
  downloadPromise <- waitForEvent download ;;
  clicking <- click_start site (getByRole "link" filename) ;;
  Promise_all listener_first downloadPromise (getByRole "link" filename) clicking.

(** The order the comment of [downloadFileByName] warns against: the
    click first, the listener after it. *)
Definition click_first (filename : string) : Task Payload :=
  click site (getByRole "link" filename) ;;
  downloadPromise <- waitForEvent download ;;
  await_promise downloadPromise.
End Methods.

End FileDownloadPage.

(** ** FileUploadPage *)
Module FileUploadPage.
Import Driver.
Local Open Scope task_scope.

Definition dropZone : Target := getByTestId "file-input".

Section Methods.
Variable site : Target -> option Reaction.
Variable fs : string -> option Buffer.
(** [path.join] and [__dirname], of the platform. *)
Variable path_join : list string -> string.
Variable dirname : string.

(** Returns nothing: the chooser is used up by [setFiles]. *)
Definition uploadViaFileChooser (filename : string) : Task unit :=
  let filePath := path_join [dirname; "../fixtures"%string; filename] in
  fileChooserPromise <- waitForEvent filechooser ;;
  click site dropZone ;;
  fileChooser <- await_promise fileChooserPromise ;;
  setFiles fs fileChooser filePath.
End Methods.

End FileUploadPage.

(** ** WindowsPage *)
Module WindowsPage.
Import Driver.
Local Open Scope task_scope.

Definition Z_to_string (n : Z) : string := NilZero.string_of_int (Z.to_int n).

Section Methods.
Variable site : Target -> option Reaction.

Definition clickLinkOpeningNewWindow (linkText : string) : Task Payload :=
  newPagePromise <- waitForEvent page ;;
  click site (getByRole "link" linkText) ;;
  newPage <- await_promise newPagePromise ;;
  waitForLoadState newPage ;;
  ret newPage.

Variable Page : Type.
(** [this.context.pages()]. *)
Variable pages : list Page.

Definition getWindowCount : Z := Z.of_nat (List.length pages).

(** [pages[index]]: [undefined] wherever the array has no element. *)
Definition pages_at (index : Z) : option Page :=
  if (index <? 0)%Z then None else nth_error pages (Z.to_nat index).

Definition switchToWindow (index : Z) : Outcome (option Page) :=
  if (index >=? Z.of_nat (List.length pages))%Z
  then Throw (Error ("Window " ++ Z_to_string index ++ " does not exist")%string)
  else Ok (pages_at index).
End Methods.

Arguments getWindowCount {Page} pages.
Arguments pages_at {Page} pages index.
Arguments switchToWindow {Page} pages index.

End WindowsPage.

(** ** The helper [dismissAnyAds] of the upload and download scenarios *)
Module Helpers.
Import Driver.
Local Open Scope task_scope.

Section Helper.
Variable site : Target -> option Reaction.

Definition times : string := String (ascii_of_nat 215) EmptyString.

Definition dismissAnyAds : Task unit :=
  try_catch (click site closeAdButton) ;;
  try_catch (click site (getByRole "button" "Close")) ;;
  try_catch (click site (getByText times)).
End Helper.

(** The wait of scenario TC-DD12 for the ad to be gone, with its
    [.catch(() => {})]: "don't fail if no ad found". *)
Definition TC_DD12_wait_for_ad_gone (gone : bool) : Task unit :=
  try_catch (waitForFunction gone).

End Helpers.

(** ** The three operations that observe an event a click causes *)
Module Observing.
Import Driver.
Local Open Scope task_scope.

Inductive Operation : Type :=
| DownloadFileByName (filename : string)
| ClickLinkOpeningNewWindow (linkText : string)
| UploadViaFileChooser (filename : string).

Definition trigger (o : Operation) : Target :=
  match o with
  | DownloadFileByName filename => getByRole "link" filename
  | ClickLinkOpeningNewWindow linkText => getByRole "link" linkText
  | UploadViaFileChooser _ => FileUploadPage.dropZone
  end.

Definition observed (o : Operation) : EventKind :=
  match o with
  | DownloadFileByName _ => download
  | ClickLinkOpeningNewWindow _ => page
  | UploadViaFileChooser _ => filechooser
  end.

Section Perform.
Variable site : Target -> option Reaction.
Variable fs : string -> option Buffer.
Variable path_join : list string -> string.
Variable dirname : string.

(** The value the call returns to its caller, [None] for [undefined]. *)
Definition perform (o : Operation) : Task (option Payload) :=
  match o with
  | DownloadFileByName filename =>
      d <- FileDownloadPage.downloadFileByName site filename ;; ret (Some d)
  | ClickLinkOpeningNewWindow linkText =>
      p <- WindowsPage.clickLinkOpeningNewWindow site linkText ;; ret (Some p)
  | UploadViaFileChooser filename =>
      FileUploadPage.uploadViaFileChooser site fs path_join dirname filename ;;
      ret None
  end.
End Perform.

(** What the caller gets when the event [e] is observed. *)
Definition returned (o : Operation) (e : Payload) : option Payload :=
  match o with
  | DownloadFileByName _ | ClickLinkOpeningNewWindow _ => Some e
  | UploadViaFileChooser _ => None
  end.

(** The steps after the event is observed go through: the new page loads,
    the fixture to upload exists. *)
Definition completes (fs : string -> option Buffer) (path_join : list string -> string)
           (dirname : string) (o : Operation) (e : Payload) : bool :=
  match o with
  | DownloadFileByName _ => true
  | ClickLinkOpeningNewWindow _ =>
      match e with
      | NewPage _ loads => loads
      | _ => true
      end
  | UploadViaFileChooser filename =>
      match fs (path_join [dirname; "../fixtures"%string; filename]) with
      | Some _ => true
      | None => false
      end
  end.

(** The steps a call added to the trace. *)
Definition steps_between (before after : Session) : list Step :=
  skipn (List.length before.(trace)) after.(trace).

(** What the operation does with the payload once the promise has
    resolved with it. *)
Definition steps_after_the_event (path_join : list string -> string) (dirname : string)
           (o : Operation) (e : Payload) : list Step :=
  match o with
  | DownloadFileByName _ => []
  | ClickLinkOpeningNewWindow _ =>
      match e with
      | NewPage url _ => [AwaitedLoadState url]
      | _ => []
      end
  | UploadViaFileChooser filename =>
      [SetFiles e (path_join [dirname; "../fixtures"%string; filename])]
  end.

(** Positions in a trace. *)
Fixpoint position (same : Step -> bool) (steps : list Step) : option nat :=
  match steps with
  | [] => None
  | x :: rest => if same x then Some 0 else option_map S (position same rest)
  end.

Definition is_subscription (x : Step) : bool :=
  match x with Subscribed _ _ => true | _ => false end.
Definition is_click (x : Step) : bool :=
  match x with Clicked _ => true | _ => false end.
Definition is_click_await (x : Step) : bool :=
  match x with AwaitedClick _ => true | _ => false end.
Definition is_promise_await (x : Step) : bool :=
  match x with AwaitedPromise _ => true | _ => false end.
Definition is_join (x : Step) : bool :=
  match x with AwaitedAll _ _ => true | _ => false end.

Definition earlier (a b : option nat) : bool :=
  match a, b with
  | Some i, Some j => Nat.ltb i j
  | _, _ => false
  end.

(** The listener is registered before the click is issued. *)
Definition registered_before_trigger (steps : list Step) : bool :=
  earlier (position is_subscription steps) (position is_click steps).

(** The promise of the listener and the click are awaited in one join. *)
Definition awaited_together (steps : list Step) : bool :=
  existsb is_join steps.

(** The click is awaited to its end, the promise of the listener after it. *)
Definition listener_awaited_second (steps : list Step) : bool :=
  earlier (position is_click_await steps) (position is_promise_await steps).

End Observing.

(** ** The calls of the page objects that await the driver *)
Module Calls.
Import Driver.
Local Open Scope task_scope.

Inductive Method : Type :=
| downloadFileByName (filename : string)
| downloadAndReadText (filename : string)
| downloadAndReadBuffer (filename : string)
| clickLinkOpeningNewWindow (linkText : string)
| uploadViaFileChooser (filename : string).

Section Call.
Variable site : Target -> option Reaction.
Variable fs : string -> option Buffer.
Variable utf8 : Buffer -> string.
Variable path_join : list string -> string.
Variable dirname : string.

(** The call, awaited by its caller; the value it returns is left out. *)
Definition call (m : Method) : Task unit :=
  match m with
  | downloadFileByName filename =>
      FileDownloadPage.downloadFileByName site filename ;; ret tt
  | downloadAndReadText filename =>
      FileDownloadPage.downloadAndReadText site fs utf8 filename ;; ret tt
  | downloadAndReadBuffer filename =>
      FileDownloadPage.downloadAndReadBuffer site fs filename ;; ret tt
  | clickLinkOpeningNewWindow linkText =>
      WindowsPage.clickLinkOpeningNewWindow site linkText ;; ret tt
  | uploadViaFileChooser filename =>
      FileUploadPage.uploadViaFileChooser site fs path_join dirname filename
  end.
End Call.

(** The errors thrown during a call. *)
Definition thrown_between (before after : Session) : list JsError :=
  skipn (List.length before.(thrown)) after.(thrown).

(** The task lets every error out: nothing is thrown while it runs when it
    returns, and when it throws, what it throws is the one error thrown
    while it ran. *)
Definition surfaces {A : Type} (m : Task A) : Prop :=
  forall s,
    match m s with
    | (Ok _, s') => s'.(thrown) = s.(thrown)
    | (Throw e, s') => s'.(thrown) = s.(thrown) ++ [e]
    end.

End Calls.

(** ** Reading a table as data

    The vocabulary of the statements about [TablePage]: the cell of a row
    in a column, what it means for a row to match a search, and the first
    position of a list at which a test holds. *)
Module TableView.
Import Dom.

(** The text of the cell of [row] that the column index [c] selects, if
    it selects one: the cells count from 0, a negative index from the last
    cell backwards, as [nth] does. *)
Definition cell_at (c : Z) (row : Row) : option string :=
  option_map cell_text (Locator.nth_match (select_td row) c).

Definition has_column (c : Z) (row : Row) : bool :=
  match cell_at c row with
  | Some _ => true
  | None => false
  end.

Definition cell_matches (c : Z) (searchText : string) (row : Row) : bool :=
  match cell_at c row with
  | Some text => Js.includes text searchText
  | None => false
  end.

Definition row_matches (searchText : string) (row : Row) : bool :=
  Js.includes (row_text row) searchText.

(** The row as [getRowData] and [getAllTableData] give it. *)
Definition trimmed_cells (row : Row) : list string :=
  map Js.trim (map cell_text (select_td row)).

(** [text] contains [part] as a substring. *)
Definition contains (text part : string) : Prop :=
  exists pre post, text = (pre ++ part ++ post)%string.

(** [i] is the lowest position of [xs] whose element passes [test]. *)
Definition first_at {A : Type} (test : A -> bool) (xs : list A) (i : nat) : Prop :=
  (exists x, nth_error xs i = Some x /\ test x = true)
  /\ forall j y, j < i -> nth_error xs j = Some y -> test y = false.

(** No element of [xs] passes [test]. *)
Definition none_of {A : Type} (test : A -> bool) (xs : list A) : Prop :=
  forall x, In x xs -> test x = false.

(** What a search returns: [-1], or the position [offset + k] of the first
    element that passes. *)
Fixpoint first_index {A : Type} (test : A -> bool) (xs : list A) (offset : nat) : Z :=
  match xs with
  | [] => (-1)%Z
  | x :: rest => if test x then Z.of_nat offset else first_index test rest (S offset)
  end.

(** The scan of [findRowIndexByCellContent] over the rows from position
    [i] on: it stops at the first row without the column. *)
Fixpoint scan_cells (c : Z) (searchText : string) (rows : list Row) (i : nat)
  : Outcome Z :=
  match rows with
  | [] => Ok (-1)%Z
  | row :: rest =>
      match cell_at c row with
      | None => Throw (TimeoutError for_locator)
      | Some text =>
          if Js.includes text searchText then Ok (Z.of_nat i)
          else scan_cells c searchText rest (S i)
      end
  end.

(** A column is in order when each value is [Js.sort_le] the next. *)
Fixpoint ordered (le : option string -> option string -> bool)
         (xs : list (option string)) : bool :=
  match xs with
  | [] => true
  | x :: rest =>
      match rest with
      | [] => true
      | y :: _ => le x y && ordered le rest
      end
  end.

End TableView.

(** ** A scenario: awaited reads and changes of the live document *)
Module Scenario.
Import Locator.

Definition Scenario (D A : Type) : Type := D -> Outcome A * D.

Definition ret {D A : Type} (a : A) : Scenario D A := fun d => (Ok a, d).

Definition bind {D A B : Type} (m : Scenario D A) (k : A -> Scenario D B)
  : Scenario D B :=
  fun d =>
    match m d with
    | (Ok a, d') => k a d'
    | (Throw e, d') => (Throw e, d')
    end.

(** An awaited read: it is answered from the document of the moment. *)
Definition read {D A : Type} (r : Read D A) : Scenario D A := fun d => (r d, d).

(** The page changes its document (a re-sort, a re-render). *)
Definition mutate {D : Type} (change : D -> D) : Scenario D unit :=
  fun d => (Ok tt, change d).

(** The same read twice in a row. *)
Definition twice {D A : Type} (r : Read D A) : Scenario D (A * A) :=
  bind (read r) (fun x => bind (read r) (fun y => ret (x, y))).

(** The same read before and after a change of the document. *)
Definition around {D A : Type} (change : D -> D) (r : Read D A) : Scenario D (A * A) :=
  bind (read r) (fun x =>
  bind (mutate change) (fun _ =>
  bind (read r) (fun y => ret (x, y)))).

End Scenario.

(** ** A concrete site and disk for the examples *)
Module Examples.
Import Driver.

(** A download link, a link with [target="_blank"], the upload input; the
    events arrive at the time [tm]. *)
Definition practice_site (tm : Timing) (t : Target) : option Reaction :=
  match t with
  | getByRole role name =>
      if String.eqb role "link" && String.eqb name "some-file.txt"
      then Some {| emits := Some (Download "some-file.txt" (Ok "/tmp/dl-1"%string));
                   timing := tm |}
      else if String.eqb role "link" && String.eqb name "broken.bin"
      then Some {| emits := Some (Download "broken.bin" (Throw (Error "canceled")));
                   timing := tm |}
      else if String.eqb role "link" && String.eqb name "Click Here"
      then Some {| emits := Some (NewPage "/windows/new" true); timing := tm |}
      else if String.eqb role "link" && String.eqb name "About"
      then Some {| emits := None; timing := tm |}
      else None
  | getByTestId testId =>
      if String.eqb testId "file-input"
      then Some {| emits := Some (FileChooser "file-input"); timing := tm |}
      else None
  | getByText _ => None
  | closeAdButton => None
  end.

Definition disk (path : string) : option Buffer :=
  if String.eqb path "/tmp/dl-1" then Some (list_byte_of_string "Message: Welcome")
  else if String.eqb path "/repo/pages/../fixtures/test-upload.txt"
  then Some (list_byte_of_string "upload me")
  else None.

(** The decoding of a file of ASCII text: one code unit per byte. *)
Definition ascii_text (content : Buffer) : string := string_of_list_byte content.

Definition join (parts : list string) : string := String.concat "/" parts.

Definition dirname : string := "/repo/pages".

End Examples.

(** ** Reading back what [JSON.stringify] wrote

    A reader for one array element, used to show that [JSON.stringify]
    writes different arrays differently. *)
Module JsonReader.
Import Js.

Definition hex_value (c : ascii) : nat :=
  let n := nat_of_ascii c in
  if Nat.leb 97 n then n - 87 else n - 48.

(** The code unit a short escape stands for. *)
Definition unescape (c : ascii) : ascii :=
  let n := nat_of_ascii c in
  if Nat.eqb n 98 then ascii_of_nat 8
  else if Nat.eqb n 116 then ascii_of_nat 9
  else if Nat.eqb n 110 then ascii_of_nat 10
  else if Nat.eqb n 102 then ascii_of_nat 12
  else if Nat.eqb n 114 then ascii_of_nat 13
  else c.

Definition push (c : ascii) (r : option (string * string)) : option (string * string) :=
  match r with
  | Some (text, rest) => Some (String c text, rest)
  | None => None
  end.

(** The text up to the closing quote, and what follows the quote. *)
Fixpoint read_body (s : string) : option (string * string) :=
  match s with
  | EmptyString => None
  | String c rest =>
      if Ascii.eqb c dquote then Some (EmptyString, rest)
      else if Ascii.eqb c backslash then
        match rest with
        | EmptyString => None
        | String e rest1 =>
            if Ascii.eqb e (ascii_of_nat 117) then
              match rest1 with
              | String _ (String _ (String h (String l rest2))) =>
                  push (ascii_of_nat (16 * hex_value h + hex_value l)) (read_body rest2)
              | _ => None
              end
            else push (unescape e) (read_body rest1)
        end
      else push c (read_body rest)
  end.

(** One array element, and what follows it. *)
Definition read_element (s : string) : option (option string * string) :=
  match s with
  | EmptyString => None
  | String c rest =>
      if Ascii.eqb c dquote then
        match read_body rest with
        | Some (text, rest') => Some (Some text, rest')
        | None => None
        end
      else
        match rest with
        | String _ (String _ (String _ rest')) => Some (None, rest')
        | _ => None
        end
  end.

(** What follows the first element of a non-empty array: the closing
    bracket, or a comma and the other elements. *)
Definition after_first (rest : list (option string)) (tail : string) : string :=
  match rest with
  | [] => tail
  | _ :: _ => ("," ++ json_elements rest ++ tail)%string
  end.

End JsonReader.

(** ** The order of the sort, as relations *)
Module SortOrder.

Definition le (x y : option string) : Prop := Js.sort_le x y = true.

Definition ge (x y : option string) : Prop := Js.sort_le y x = true.

End SortOrder.
(** ** TablePage: the number of columns *)
Module TablePageColumns.
Import Locator Dom TablePage.

Section Methods.
Variable this : TablePage.

Definition getColumnCount : Read Table Z :=
  let firstRow := nth this.(tableRows) 0%Z in
  count (locator firstRow select_td).
End Methods.

End TablePageColumns.

(** ** The values of a column, as the order checks and [getColumnData]
    read them *)
Module ColumnView.
Import Dom TableView.

Definition column_of (c : nat) (t : Table) : list (option string) :=
  map (fun row => Js.index (trimmed_cells row) c) t.

End ColumnView.

(** ** WindowsPage: the pages of the context

    A page of the browser context, with the identity that [===] compares,
    its title and its address.  [context.pages()] is the list of the open
    pages in the order they were opened. *)
Module WindowsContext.

Record Page : Type := {
  page_id : nat;
  page_title : string;
  page_url : string
}.

(** [p === q] on page objects. *)
Definition same_page (p q : Page) : bool := Nat.eqb p.(page_id) q.(page_id).

(** The pages of a context are distinct objects. *)
Definition distinct (pages : list Page) : Prop := NoDup (map page_id pages).

Definition getAllPages (pages : list Page) : list Page := pages.

(** [pages[pages.length - 1]]. *)
Definition switchToLastWindow {P : Type} (pages : list P) : option P :=
  WindowsPage.pages_at pages (Z.of_nat (List.length pages) - 1)%Z.

(** [for (const page of pages)], returning [null] after the loop. *)
Fixpoint findWindowByTitle (title : string) (pages : list Page) : option Page :=
  match pages with
  | [] => None
  | page :: rest =>
      let pageTitle := page.(page_title) in
      if Js.includes pageTitle title then Some page
      else findWindowByTitle title rest
  end.

(** A [string | RegExp]; the regular expression is what its [test] answers
    on a string (an expression without the [g] and [y] flags, whose [test]
    keeps no state). *)
Inductive UrlPattern : Type :=
| pattern_string (text : string)
| pattern_regexp (test : string -> bool).

Definition url_matches (urlPattern : UrlPattern) (url : string) : bool :=
  match urlPattern with
  | pattern_string text => Js.includes url text
  | pattern_regexp test => test url
  end.

Fixpoint findWindowByURL (urlPattern : UrlPattern) (pages : list Page) : option Page :=
  match pages with
  | [] => None
  | page :: rest =>
      let url := page.(page_url) in
      match urlPattern with
      | pattern_string text =>
          if Js.includes url text then Some page else findWindowByURL urlPattern rest
      | pattern_regexp test =>
          if test url then Some page else findWindowByURL urlPattern rest
      end
  end.

(** [await page.close()]: the page leaves the context. *)
Definition close (page : Page) (context : list Page) : list Page :=
  filter (fun q => negb (same_page page q)) context.

Definition closeWindow (page : Page) (context : list Page) : list Page :=
  close page context.

(** [page !== mainPage], [mainPage] being [pages[0]], [undefined] in an
    empty context. *)
Definition differs (page : Page) (mainPage : option Page) : bool :=
  match mainPage with
  | Some main => negb (same_page page main)
  | None => true
  end.

(** The body of [for (const page of pages)], over the array taken before
    the loop. *)
Fixpoint closeAllExceptMain_loop (pages : list Page) (mainPage : option Page)
         (context : list Page) : list Page :=
  match pages with
  | [] => context
  | page :: rest =>
      closeAllExceptMain_loop rest mainPage
        (if differs page mainPage then close page context else context)
  end.

Definition closeAllExceptMain (context : list Page) : list Page :=
  let pages := context in
  let mainPage := Js.index pages 0 in
  closeAllExceptMain_loop pages mainPage context.

End WindowsContext.

(** ** FileDownloadPage: the list of the files on offer

    The [a] elements of the download page in document order, each with its
    [href] attribute as written and its rendered text. *)
Module DownloadList.
Import Locator.
Local Open Scope read_scope.

Record Anchor : Type := {
  href : string;
  anchor_innerText : string
}.

Definition Document : Type := list Anchor.

(** The selector [a[href^="download/"]]: the value of the attribute
    starts with the text. *)
Definition links : Locator Document Anchor :=
  fun d => filter (fun a => String.prefix "download/" a.(href)) d.

(** The driver's [locator.innerText()]: like [textContent], it waits for
    the locator to resolve to one element. *)
Definition innerText (l : Locator Document Anchor) : Read Document string :=
  fun d =>
    match l d with
    | [] => Throw (TimeoutError for_locator)
    | [a] => Ok a.(anchor_innerText)
    | _ :: _ :: _ => Throw (Error "strict mode violation")
    end.

(** [for (let i = 0; i < count; i++)], with [remaining = count - i]. *)
Fixpoint getDownloadableFiles_loop (remaining i : nat) (filenames : list string)
  : Read Document (list string) :=
  match remaining with
  | O => ret filenames
  | S remaining' =>
      text <- innerText (nth links (Z.of_nat i)) ;;
      getDownloadableFiles_loop remaining' (S i) (filenames ++ [Js.trim text])
  end.

Definition getDownloadableFiles : Read Document (list string) :=
  count <- count links ;;
  getDownloadableFiles_loop (Z.to_nat count) 0 [].

End DownloadList.

(** ** The test data: user names for registration *)
Module Users.

(** [uniqueUsername(prefix = "testuser")], [now] being what [Date.now()]
    reads: the milliseconds since the epoch. *)
Definition uniqueUsername (prefix : option string) (now : Z) : string :=
  let prefix := match prefix with
                | Some given => given
                | None => "testuser"%string
                end in
  (prefix ++ "-" ++ WindowsPage.Z_to_string now)%string.

(** The alphabet of user names the comment gives: lowercase letters,
    digits and hyphens. *)
Definition username_char (c : ascii) : bool :=
  let n := nat_of_ascii c in
  (Nat.leb 97 n && Nat.leb n 122) || (Nat.leb 48 n && Nat.leb n 57) || Nat.eqb n 45.

Fixpoint username_chars (s : string) : bool :=
  match s with
  | EmptyString => true
  | String c rest => username_char c && username_chars rest
  end.

Definition hyphen : ascii := ascii_of_nat 45.

Fixpoint has_hyphen (s : string) : bool :=
  match s with
  | EmptyString => false
  | String c rest => Ascii.eqb c hyphen || has_hyphen rest
  end.

End Users.

(** * Facts *)

(** ** Strings *)
Module JsFacts.
Import Js.

Lemma prefix_app (p s : string) :
  String.prefix p s = true <-> exists post, s = (p ++ post)%string.
Proof.
  revert s; induction p as [|a p IH]; intros s.
  - split; [intros _; exists s; reflexivity | intros _; destruct s; reflexivity].
  - destruct s as [|b s]; simpl.
    + split; [discriminate | intros [post H]; discriminate].
    + destruct (Ascii.ascii_dec a b) as [->|Hab].
      * rewrite IH. split; intros [post H]; exists post.
        -- now rewrite H.
        -- now inversion H.
      * split; [discriminate | intros [post H]; inversion H; subst; contradiction].
Qed.

Lemma includes_nil (needle : string) :
  includes EmptyString needle = String.prefix needle EmptyString.
Proof. simpl. apply orb_false_r. Qed.

Lemma includes_cons (a : ascii) (hay needle : string) :
  includes (String a hay) needle
  = String.prefix needle (String a hay) || includes hay needle.
Proof. reflexivity. Qed.

Lemma includes_app (hay needle : string) :
  includes hay needle = true
  <-> exists pre post, hay = (pre ++ needle ++ post)%string.
Proof.
  induction hay as [|a hay IH].
  - rewrite includes_nil, prefix_app. split.
    + intros [post H]. exists EmptyString, post. exact H.
    + intros [pre [post H]]. destruct pre; simpl in H.
      * now exists post.
      * discriminate.
  - rewrite includes_cons, orb_true_iff, IH, prefix_app. split.
    + intros [[post H] | [pre [post H]]].
      * exists EmptyString, post. exact H.
      * exists (String a pre), post. simpl. now rewrite H.
    + intros [pre [post H]]. destruct pre as [|b pre]; simpl in H.
      * left. now exists post.
      * right. inversion H. now exists pre, post.
Qed.

Lemma includes_empty (hay : string) : includes hay EmptyString = true.
Proof. destruct hay; reflexivity. Qed.

Lemma sort_le_refl (x : option string) : sort_le x x = true.
Proof.
  destruct x as [s|]; simpl; [|reflexivity].
  destruct (String.leb_total s s); assumption.
Qed.

Lemma sort_le_total (x y : option string) : sort_le x y = true \/ sort_le y x = true.
Proof.
  destruct x as [a|], y as [b|]; simpl; auto using String.leb_total.
Qed.

Lemma sort_le_antisym (x y : option string) :
  sort_le x y = true -> sort_le y x = true -> x = y.
Proof.
  destruct x as [a|], y as [b|]; simpl; try discriminate; trivial.
  intros H1 H2. f_equal. now apply String.leb_antisym.
Qed.

Lemma trim_examples :
  trim "  Smith " = "Smith"%string
  /\ trim (String (ascii_of_nat 10) (String (ascii_of_nat 9) "a b")) = "a b"%string
  /\ trim "   " = EmptyString
  /\ trim "a" = "a"%string.
Proof. repeat split; reflexivity. Qed.

Lemma includes_examples :
  includes "Smith" "mit" = true
  /\ includes "Smith" "Smith" = true
  /\ includes "Smith" "smith" = false
  /\ includes EmptyString EmptyString = true
  /\ includes EmptyString "a" = false.
Proof. repeat split; reflexivity. Qed.

Lemma JSON_stringify_examples :
  JSON_stringify [Some "2"%string; Some "10"%string]
  = String "[" (String dquote (String "2" (String dquote (String ","
      (String dquote (String "1" (String "0" (String dquote "]"))))))))
  /\ JSON_stringify [None; Some EmptyString] = String "[" ("null," ++ String dquote (String dquote "]"))
  /\ JSON_stringify [] = "[]"%string
  /\ json_escape_all (String (ascii_of_nat 10) (String dquote (String (ascii_of_nat 1) "a")))
     = String backslash ("n" ++ String backslash (String dquote (String backslash "u0001a"))).
Proof. repeat split; reflexivity. Qed.

Lemma sort_examples :
  sort [Some "2"%string; None; Some "10"%string; Some "b"%string; Some "B"%string]
  = [Some "10"%string; Some "2"%string; Some "B"%string; Some "b"%string; None].
Proof. reflexivity. Qed.

End JsFacts.

(** ** TablePage *)
Module TableFacts.
Import Locator Dom TablePage TableView.
Local Open Scope Z_scope.

Lemma getRowCount_length (t : Table) :
  getRowCount new t = Ok (Z.of_nat (List.length t)).
Proof. reflexivity. Qed.

Lemma nth_match_of_nat {E : Type} (matches : list E) (i : nat) :
  nth_match matches (Z.of_nat i) = nth_error matches i.
Proof.
  unfold nth_match. destruct (Z.ltb_spec (Z.of_nat i) 0) as [H|_]; [lia|].
  now rewrite Nat2Z.id.
Qed.

Lemma nth_match_In {E : Type} (matches : list E) (i : Z) (e : E) :
  nth_match matches i = Some e -> In e matches.
Proof.
  unfold nth_match.
  destruct (i <? 0); [destruct (Z.of_nat (List.length matches) + i <? 0)|];
    try discriminate; apply nth_error_In.
Qed.

Lemma nth_match_nil {E : Type} (i : Z) : nth_match (@nil E) i = None.
Proof.
  unfold nth_match; simpl.
  destruct (i <? 0); [destruct (0 + i <? 0)|]; try reflexivity;
    match goal with |- nth_error [] ?n = None => destruct n; reflexivity end.
Qed.

(** [getCellText] on any pair of indices: the row that [rowIndex] selects,
    then the cell that [colIndex] selects in it. *)
Lemma getCellText_at (t : Table) (r c : Z) :
  getCellText new r c t
  = match nth_match t r with
    | Some row =>
        match cell_at c row with
        | Some text => Ok text
        | None => Throw (TimeoutError for_locator)
        end
    | None => Throw (TimeoutError for_locator)
    end.
Proof.
  unfold getCellText, getRow, bind, textContent, nth, locator, cell_at; simpl.
  destruct (nth_match t r) as [row|]; simpl; [|now rewrite nth_match_nil].
  rewrite app_nil_r.
  destruct (nth_match (select_td row) c) as [cell|]; reflexivity.
Qed.

Lemma getCellText_cell (t : Table) (r : nat) (c : Z) :
  getCellText new (Z.of_nat r) c t
  = match nth_error t r with
    | Some row =>
        match cell_at c row with
        | Some text => Ok text
        | None => Throw (TimeoutError for_locator)
        end
    | None => Throw (TimeoutError for_locator)
    end.
Proof. now rewrite getCellText_at, nth_match_of_nat. Qed.

Lemma nth_error_middle {A : Type} (pre : list A) (x : A) (post : list A) :
  nth_error (pre ++ x :: post) (List.length pre) = Some x.
Proof. induction pre; simpl; auto. Qed.

Lemma cell_loop_scan (c : Z) (s : string) (rows pre : list Row) :
  findRowIndexByCellContent_loop new c s (List.length rows) (List.length pre) (pre ++ rows)
  = scan_cells c s rows (List.length pre).
Proof.
  revert pre; induction rows as [|row rows IH]; intros pre; simpl.
  - reflexivity.
  - unfold bind at 1. rewrite getCellText_cell, nth_error_middle.
    destruct (cell_at c row) as [text|]; [|reflexivity].
    destruct (Js.includes text s); [reflexivity|].
    specialize (IH (pre ++ [row])).
    rewrite <- app_assoc, length_app, Nat.add_1_r in IH. exact IH.
Qed.

Lemma findRowIndexByCellContent_scan (c : Z) (s : string) (t : Table) :
  findRowIndexByCellContent new c s t = scan_cells c s t 0%nat.
Proof.
  unfold findRowIndexByCellContent, bind. rewrite getRowCount_length, Nat2Z.id.
  exact (cell_loop_scan c s t []).
Qed.

Lemma scan_cells_first_index (c : Z) (s : string) (rows : list Row) (i : nat) :
  (forall row, In row rows -> has_column c row = true) ->
  scan_cells c s rows i = Ok (first_index (cell_matches c s) rows i).
Proof.
  revert i; induction rows as [|row rows IH]; intros i Hcol; simpl.
  - reflexivity.
  - assert (Hrow := Hcol row (or_introl eq_refl)).
    unfold has_column in Hrow. unfold cell_matches.
    destruct (cell_at c row) as [text|]; [|discriminate].
    destruct (Js.includes text s); [reflexivity|].
    apply IH. intros r Hr. apply Hcol. now right.
Qed.

Lemma first_index_cases {A : Type} (test : A -> bool) (xs : list A) (i : nat) :
  (first_index test xs i = -1 /\ none_of test xs)
  \/ (exists k, first_index test xs i = Z.of_nat (i + k) /\ first_at test xs k).
Proof.
  revert i; induction xs as [|x xs IH]; intros i; simpl.
  - left. split; [reflexivity | intros y []].
  - destruct (test x) eqn:Hx.
    + right. exists 0%nat. rewrite Nat.add_0_r. split; [reflexivity|].
      split; [exists x; auto | intros j y Hj; lia].
    + destruct (IH (S i)) as [[E N] | [k [E [[y [Hy Ty]] F]]]].
      * left. split; [exact E|]. intros y [<-|Hy]; auto.
      * right. exists (S k). split; [rewrite E; f_equal; lia|].
        split; [exists y; auto|].
        intros [|j] z Hj Hz; simpl in Hz.
        -- now inversion Hz; subst.
        -- apply (F j z); [lia | exact Hz].
Qed.

Lemma textContent_row (t : Table) (i : nat) :
  textContent (nth (tableRows new) (Z.of_nat i)) t
  = match nth_error t i with
    | Some row => Ok (Some (row_text row))
    | None => Throw (TimeoutError for_locator)
    end.
Proof.
  unfold textContent, nth; simpl. rewrite nth_match_of_nat.
  destruct (nth_error t i); reflexivity.
Qed.

Lemma row_loop_first_index (s : string) (rows pre : list Row) :
  findRowByContent_loop s
    (map (fun i => nth (tableRows new) (Z.of_nat i)) (seq (List.length pre) (List.length rows)))
    (List.length pre) (pre ++ rows)
  = Ok (first_index (row_matches s) rows (List.length pre)).
Proof.
  revert pre; induction rows as [|row rows IH]; intros pre; simpl.
  - reflexivity.
  - unfold bind at 1. rewrite textContent_row, nth_error_middle. simpl.
    unfold row_matches at 1.
    destruct (Js.includes (row_text row) s); [reflexivity|].
    specialize (IH (pre ++ [row])).
    rewrite <- app_assoc, length_app, Nat.add_1_r in IH. exact IH.
Qed.

Lemma findRowByContent_first_index (s : string) (t : Table) :
  findRowByContent new s t = Ok (first_index (row_matches s) t 0%nat).
Proof. exact (row_loop_first_index s t []). Qed.

Lemma allTextContents_at (t : Table) (i : Z) :
  allTextContents (locator (nth (tableRows new) i) select_td) t
  = Ok (match nth_match t i with
        | Some row => map cell_text (select_td row)
        | None => []
        end).
Proof.
  unfold allTextContents, locator, nth; simpl.
  destruct (nth_match t i); simpl; [now rewrite app_nil_r | reflexivity].
Qed.

Lemma allTextContents_row (t : Table) (i : nat) (row : Row) :
  nth_error t i = Some row ->
  allTextContents (locator (nth (tableRows new) (Z.of_nat i)) select_td) t
  = Ok (map cell_text (select_td row)).
Proof.
  intros H. now rewrite allTextContents_at, nth_match_of_nat, H.
Qed.

Lemma data_loop_rows (rows pre : list Row) (data : list (list string)) :
  getAllTableData_loop
    (map (fun i => nth (tableRows new) (Z.of_nat i)) (seq (List.length pre) (List.length rows)))
    data (pre ++ rows)
  = Ok (data ++ map trimmed_cells rows).
Proof.
  revert pre data; induction rows as [|row rows IH]; intros pre data;
    cbn [getAllTableData_loop map seq List.length].
  - unfold ret. now rewrite app_nil_r.
  - unfold bind at 1. rewrite (allTextContents_row _ _ row (nth_error_middle pre row rows)).
    specialize (IH (pre ++ [row]) (data ++ [map Js.trim (map cell_text (select_td row))])).
    rewrite <- !app_assoc, length_app, Nat.add_1_r in IH. exact IH.
Qed.

Lemma getAllTableData_rows (t : Table) :
  getAllTableData new t = Ok (map trimmed_cells t).
Proof. exact (data_loop_rows t [] []). Qed.

Lemma getColumnData_cells (c : nat) (t : Table) :
  getColumnData new c t = Ok (map (fun row => Js.index (trimmed_cells row) c) t).
Proof.
  unfold getColumnData, bind. rewrite getAllTableData_rows. unfold ret.
  now rewrite map_map.
Qed.

Lemma getRowData_row (t : Table) (i : nat) (row : Row) :
  nth_error t i = Some row -> getRowData new (Z.of_nat i) t = Ok (trimmed_cells row).
Proof.
  intros H. unfold getRowData, getRow, bind.
  now rewrite (allTextContents_row _ _ row H).
Qed.

Lemma first_index_hit {A : Type} (test : A -> bool) (xs : list A) (i off : nat) :
  first_at test xs i -> first_index test xs off = Z.of_nat (off + i).
Proof.
  revert i off; induction xs as [|x xs IH]; intros i off [[y [Hy Ty]] F].
  - destruct i; discriminate.
  - destruct i as [|i]; simpl in *.
    + inversion Hy; subst. rewrite Ty. f_equal. lia.
    + rewrite (F 0%nat x) by (auto; lia).
      rewrite (IH i (S off)); [f_equal; lia|].
      split; [exists y; auto|].
      intros j z Hj Hz. apply (F (S j) z); [lia | exact Hz].
Qed.

Lemma scan_cells_hit (c : Z) (s : string) (rows : list Row) (i off : nat) :
  (forall j row, (j <= i)%nat -> nth_error rows j = Some row -> has_column c row = true) ->
  first_at (cell_matches c s) rows i ->
  scan_cells c s rows off = Ok (Z.of_nat (off + i)).
Proof.
  revert i off; induction rows as [|row rows IH]; intros i off Hcol [[y [Hy Ty]] F].
  - destruct i; discriminate.
  - destruct i as [|i]; simpl in *.
    + inversion Hy; subst. unfold cell_matches in Ty.
      destruct (cell_at c y) as [text|]; [|discriminate].
      rewrite Ty. do 2 f_equal. lia.
    + assert (Hrow := Hcol 0%nat row (Nat.le_0_l _) eq_refl).
      assert (Frow := F 0%nat row (Nat.lt_0_succ _) eq_refl).
      unfold has_column in Hrow. unfold cell_matches in Frow.
      destruct (cell_at c row) as [text|]; [|discriminate].
      rewrite Frow.
      rewrite (IH i (S off)); [do 2 f_equal; lia | |].
      * intros j z Hj Hz. apply (Hcol (S j) z); [lia | exact Hz].
      * split; [exists y; auto|].
        intros j z Hj Hz. apply (F (S j) z); [lia | exact Hz].
Qed.

Lemma scan_cells_absent (c : Z) (s : string) (rows : list Row) (i off : nat) (row : Row) :
  nth_error rows i = Some row ->
  has_column c row = false ->
  (forall j rowj, (j < i)%nat -> nth_error rows j = Some rowj ->
                  has_column c rowj = true /\ cell_matches c s rowj = false) ->
  scan_cells c s rows off = Throw (TimeoutError for_locator).
Proof.
  revert i off; induction rows as [|r rows IH]; intros i off Hrow Hcol Hbefore.
  - destruct i; discriminate.
  - destruct i as [|i]; simpl in *.
    + inversion Hrow; subst. unfold has_column in Hcol.
      destruct (cell_at c row); [discriminate | reflexivity].
    + destruct (Hbefore 0%nat r (Nat.lt_0_succ _) eq_refl) as [Hc Hm].
      unfold has_column in Hc. unfold cell_matches in Hm.
      destruct (cell_at c r) as [text|]; [|discriminate].
      rewrite Hm. apply (IH i (S off) Hrow Hcol).
      intros j rowj Hj Hrowj. apply (Hbefore (S j) rowj); [lia | exact Hrowj].
Qed.

(** What the scan of a column comes to, in each of its three ends. *)
Lemma scan_cells_outcomes (c : Z) (s : string) (rows : list Row) (off : nat) :
  match scan_cells c s rows off with
  | Ok r =>
      (r = -1 /\ forall row, In row rows ->
                             has_column c row = true /\ cell_matches c s row = false)
      \/ (exists i, r = Z.of_nat (off + i)
                    /\ first_at (cell_matches c s) rows i
                    /\ forall j row, (j <= i)%nat -> nth_error rows j = Some row ->
                                     has_column c row = true)
  | Throw e =>
      e = TimeoutError for_locator
      /\ exists i row, nth_error rows i = Some row
                       /\ has_column c row = false
                       /\ forall j rowj, (j < i)%nat -> nth_error rows j = Some rowj ->
                                         has_column c rowj = true
                                         /\ cell_matches c s rowj = false
  end.
Proof.
  revert off; induction rows as [|row rows IH]; intros off; simpl.
  - left. split; [reflexivity | intros row []].
  - destruct (cell_at c row) as [text|] eqn:Ecell.
    + destruct (Js.includes text s) eqn:Einc.
      * right. exists 0%nat. split; [f_equal; lia|]. split.
        -- split; [|intros j y Hj; lia].
           exists row. split; [reflexivity|]. unfold cell_matches. now rewrite Ecell.
        -- intros j r Hj Hr. assert (j = 0)%nat by lia. subst j. simpl in Hr.
           inversion Hr; subst r. unfold has_column. now rewrite Ecell.
      * assert (Hrow : has_column c row = true /\ cell_matches c s row = false).
        { unfold has_column, cell_matches. rewrite Ecell. now split. }
        specialize (IH (S off)).
        destruct (scan_cells c s rows (S off)) as [r|e].
        -- destruct IH as [[-> Hall] | [i [-> [[[y [Hy Ty]] Hfirst] Hcols]]]].
           ++ left. split; [reflexivity|]. intros r [<-|Hr]; auto.
           ++ right. exists (S i). split; [f_equal; lia|]. split; [split|].
              ** exists y. now split.
              ** intros [|j] z Hj Hz; simpl in Hz.
                 --- inversion Hz; subst z. apply Hrow.
                 --- apply (Hfirst j z); [lia | exact Hz].
              ** intros [|j] z Hj Hz; simpl in Hz.
                 --- inversion Hz; subst z. apply Hrow.
                 --- apply (Hcols j z); [lia | exact Hz].
        -- destruct IH as [-> [i [y [Hy [Hcol Hbefore]]]]].
           split; [reflexivity|]. exists (S i), y. split; [exact Hy|]. split; [exact Hcol|].
           intros [|j] z Hj Hz; simpl in Hz.
           ++ inversion Hz; subst z. exact Hrow.
           ++ apply (Hbefore j z); [lia | exact Hz].
    + split; [reflexivity|]. exists 0%nat, row. split; [reflexivity|]. split.
      * unfold has_column. now rewrite Ecell.
      * intros j z Hj. lia.
Qed.

Lemma includes_contains (text s : string) :
  Js.includes text s = true <-> contains text s.
Proof. apply JsFacts.includes_app. Qed.

Lemma not_contains_includes (text s : string) :
  ~ contains text s -> Js.includes text s = false.
Proof.
  intros H. destruct (Js.includes text s) eqn:E; [|reflexivity].
  exfalso. apply H. now apply includes_contains.
Qed.

End TableFacts.

(** ** The claims about searching and counting *)
Module TableClaims.
Import Locator Dom TablePage TableView TableFacts.
Local Open Scope Z_scope.

(** C5.  [getRowCount] returns a non-negative integer for every table: the
    number of body rows; on a table without body rows it returns 0; it
    never throws. *)
Theorem getRowCount_nonneg_total :
  (forall t : Table,
      exists n, getRowCount new t = Ok n /\ 0 <= n /\ n = Z.of_nat (List.length t))
  /\ getRowCount new [] = Ok 0.
Proof.
  split; [|reflexivity].
  intros t. exists (Z.of_nat (List.length t)).
  split; [apply getRowCount_length | split; [lia | reflexivity]].
Qed.

(** C2, as the code has it.  [findRowByContent], on every table and for
    every search text, returns [-1] when no row matches and the 0-based
    position of the first matching row otherwise.
    [findRowIndexByCellContent] returns the position of the first matching
    row when every row up to and including it has a cell in the searched
    column, and [-1] when no row matches and every row has a cell in that
    column; whenever it returns, it returns [-1] with no row matching or
    the position of the first matching row.  [-1] is the position of no
    row. *)
Theorem find_first_match_or_minus_one (t : Table) (s : string) :
  (forall c i,
      (forall j row, (j <= i)%nat -> nth_error t j = Some row -> has_column c row = true) ->
      first_at (cell_matches c s) t i ->
      findRowIndexByCellContent new c s t = Ok (Z.of_nat i))
  /\ (forall c,
         (forall row, In row t -> has_column c row = true) ->
         none_of (cell_matches c s) t ->
         findRowIndexByCellContent new c s t = Ok (-1))
  /\ (forall c r,
         findRowIndexByCellContent new c s t = Ok r ->
         (r = -1 /\ none_of (cell_matches c s) t)
         \/ (exists i, r = Z.of_nat i /\ first_at (cell_matches c s) t i))
  /\ (exists r, findRowByContent new s t = Ok r
                /\ ((r = -1 /\ none_of (row_matches s) t)
                    \/ (exists i, r = Z.of_nat i /\ first_at (row_matches s) t i)))
  /\ (forall i : nat, Z.of_nat i <> -1).
Proof.
  split; [|split; [|split; [|split]]].
  - intros c i Hcol Hfirst. rewrite findRowIndexByCellContent_scan.
    exact (scan_cells_hit c s t i 0 Hcol Hfirst).
  - intros c Hcol Hnone. rewrite findRowIndexByCellContent_scan.
    rewrite (scan_cells_first_index c s t 0 Hcol).
    destruct (first_index_cases (cell_matches c s) t 0) as [[E _] | [k [_ [[x [Hx Tx]] _]]]].
    + now rewrite E.
    + apply nth_error_In in Hx. rewrite (Hnone x Hx) in Tx. discriminate.
  - intros c r H. rewrite findRowIndexByCellContent_scan in H.
    pose proof (scan_cells_outcomes c s t 0) as Hout. rewrite H in Hout.
    destruct Hout as [[-> Hall] | [i [-> [Hfirst _]]]].
    + left. split; [reflexivity|]. intros row Hrow. apply (Hall row Hrow).
    + right. exists i. split; [reflexivity | exact Hfirst].
  - rewrite findRowByContent_first_index.
    eexists; split; [reflexivity|].
    destruct (first_index_cases (row_matches s) t 0) as [H | [k [E F]]].
    + left. exact H.
    + right. exists k. split; [exact E | exact F].
  - intros i. lia.
Qed.

(** The table of a row with the cell ["Bach"] and a row without cells,
    searched in column 0: the first row matches, and the row without the
    cell is never read. *)
Lemma find_first_match_or_minus_one_witness :
  findRowIndexByCellContent new 0 "Bach" [tr ["Bach"%string]; []] = Ok 0.
Proof.
  apply (proj1 (find_first_match_or_minus_one [tr ["Bach"%string]; []] "Bach") 0 0%nat).
  - intros j row Hj Hrow. assert (j = 0)%nat by lia. subst j.
    simpl in Hrow. inversion Hrow. reflexivity.
  - split.
    + exists (tr ["Bach"%string]). split; reflexivity.
    + intros j y Hj. lia.
Defined.

(** C2 as stated fails: on a table of one row with one cell, no row
    matches in column 1, and the search does not return [-1]: reading the
    absent cell runs into the timeout of the driver. *)
Lemma find_in_absent_column_throws :
  none_of (cell_matches 1 "Smith") [tr ["Smith"%string]]
  /\ findRowIndexByCellContent new 1 "Smith" [tr ["Smith"%string]]
     = Throw (TimeoutError for_locator)
  /\ findRowIndexByCellContent new 1 "Smith" [tr ["Smith"%string]] <> Ok (-1).
Proof.
  split; [|split].
  - intros row [<- | []]. reflexivity.
  - reflexivity.
  - discriminate.
Qed.

(** C9, as the code has it.  The searches match by containment: when the
    rows up to position [i] have a cell in column [c] and [i] is the lowest
    position whose cell in column [c] contains [s] as a substring,
    [findRowIndexByCellContent c s] returns [i]; when [i] is the lowest
    position whose row text contains [s], [findRowByContent s] returns
    [i].  So the empty search text gives 0 on a table whose first row has a
    cell in column [c] (for [findRowByContent], on any table with a row),
    and a cell can be found by a proper part of its text. *)
Theorem search_is_by_containment (t : Table) (s : string) :
  (forall c i,
      (forall j row, (j <= i)%nat -> nth_error t j = Some row -> has_column c row = true) ->
      (exists row text, nth_error t i = Some row /\ cell_at c row = Some text
                        /\ contains text s) ->
      (forall j row text, (j < i)%nat -> nth_error t j = Some row ->
                          cell_at c row = Some text -> ~ contains text s) ->
      findRowIndexByCellContent new c s t = Ok (Z.of_nat i))
  /\ (forall i,
         (exists row, nth_error t i = Some row /\ contains (row_text row) s) ->
         (forall j row, (j < i)%nat -> nth_error t j = Some row ->
                        ~ contains (row_text row) s) ->
         findRowByContent new s t = Ok (Z.of_nat i))
  /\ (forall c row rest,
         t = row :: rest -> has_column c row = true ->
         findRowIndexByCellContent new c EmptyString t = Ok 0)
  /\ (forall row rest, t = row :: rest -> findRowByContent new EmptyString t = Ok 0)
  /\ (findRowIndexByCellContent new 0 "mit" [tr ["Smith"%string]] = Ok 0
      /\ findRowByContent new "mit" [tr ["Smith"%string]] = Ok 0).
Proof.
  split; [|split; [|split; [|split]]].
  - intros c i Hcol [row [text [Hrow [Hcell Hin]]]] Hfirst.
    rewrite findRowIndexByCellContent_scan.
    apply (scan_cells_hit c s t i 0 Hcol).
    split.
    + exists row. split; [exact Hrow|]. unfold cell_matches. rewrite Hcell.
      now apply includes_contains.
    + intros j rowj Hj Hrowj. unfold cell_matches.
      destruct (cell_at c rowj) as [textj|] eqn:Hcellj; [|reflexivity].
      apply not_contains_includes. exact (Hfirst j rowj textj Hj Hrowj Hcellj).
  - intros i [row [Hrow Hin]] Hfirst.
    rewrite findRowByContent_first_index.
    apply (f_equal Ok). apply (first_index_hit (row_matches s) t i 0).
    split.
    + exists row. split; [exact Hrow|]. now apply includes_contains.
    + intros j rowj Hj Hrowj. apply not_contains_includes.
      exact (Hfirst j rowj Hj Hrowj).
  - intros c row rest -> Hcol.
    rewrite findRowIndexByCellContent_scan. simpl.
    unfold has_column in Hcol.
    destruct (cell_at c row) as [text|]; [|discriminate].
    now rewrite JsFacts.includes_empty.
  - intros row rest ->.
    rewrite findRowByContent_first_index. simpl.
    unfold row_matches. now rewrite JsFacts.includes_empty.
  - split; reflexivity.
Qed.

(** The first row of the table has a cell in column 0; the empty search
    text finds it. *)
Lemma search_is_by_containment_witness :
  findRowIndexByCellContent new 0 EmptyString [tr ["Smith"%string]; []] = Ok 0.
Proof.
  apply (proj1 (proj2 (proj2 (search_is_by_containment
                                [tr ["Smith"%string]; []] EmptyString)))
           0 (tr ["Smith"%string]) [[]]); reflexivity.
Defined.

(** C9 as stated fails: the table has a row, the search text is empty, and
    the search in column 0 does not return 0, the first row having no
    cell; and with an empty first row the row whose cell contains the text
    is not returned. *)
Lemma empty_search_in_absent_column_throws :
  findRowIndexByCellContent new 0 EmptyString [[]] = Throw (TimeoutError for_locator)
  /\ findRowIndexByCellContent new 0 EmptyString [[]] <> Ok 0
  /\ findRowIndexByCellContent new 0 "Bach" [[]; tr ["Bach"%string]]
     = Throw (TimeoutError for_locator).
Proof.
  split; [reflexivity | split; [discriminate | reflexivity]].
Qed.

End TableClaims.

(** ** [JSON.stringify] tells arrays apart *)
Module JsonFacts.
Import Js JsonReader.
Local Open Scope string_scope.

Lemma append_assoc (a b c : string) : (a ++ b) ++ c = a ++ (b ++ c).
Proof. induction a; simpl; congruence. Qed.

Lemma read_body_escape (c : ascii) (tail : string) :
  read_body (json_escape c ++ tail) = push c (read_body tail).
Proof.
  destruct c as [[] [] [] [] [] [] [] []]; reflexivity.
Qed.

Lemma read_body_escape_all (s tail : string) :
  read_body (json_escape_all s ++ String dquote tail) = Some (s, tail).
Proof.
  induction s as [|c s IH]; simpl.
  - reflexivity.
  - now rewrite append_assoc, read_body_escape, IH.
Qed.

Lemma read_element_written (v : option string) (tail : string) :
  read_element (json_element v ++ tail) = Some (v, tail).
Proof.
  destruct v as [s|]; simpl; [|reflexivity].
  change (String dquote tail) with (String dquote EmptyString ++ tail).
  rewrite append_assoc. simpl. now rewrite read_body_escape_all.
Qed.

Lemma json_elements_cons (x : option string) (rest : list (option string)) (tail : string) :
  json_elements (x :: rest) ++ tail = json_element x ++ after_first rest tail.
Proof.
  destruct rest as [|y rest]; simpl json_elements; unfold after_first.
  - reflexivity.
  - now rewrite append_assoc.
Qed.

Lemma json_element_not_bracket (x : option string) (a b : string) :
  String "]" a <> json_element x ++ b.
Proof. destruct x; simpl; discriminate. Qed.

Lemma json_elements_inj (xs ys : list (option string)) (a b : string) :
  json_elements xs ++ String "]" a = json_elements ys ++ String "]" b -> xs = ys.
Proof.
  revert ys; induction xs as [|x xs IH]; intros [|y ys] H.
  - reflexivity.
  - rewrite json_elements_cons in H. simpl in H.
    now apply json_element_not_bracket in H.
  - rewrite json_elements_cons in H. simpl in H. symmetry in H.
    now apply json_element_not_bracket in H.
  - rewrite !json_elements_cons in H.
    apply (f_equal read_element) in H. rewrite !read_element_written in H.
    inversion H as [[Hx Htail]]. f_equal.
    destruct xs as [|x' xs], ys as [|y' ys]; unfold after_first in Htail.
    + reflexivity.
    + discriminate.
    + discriminate.
    + apply IH. now inversion Htail.
Qed.

Lemma JSON_stringify_inj (xs ys : list (option string)) :
  JSON_stringify xs = JSON_stringify ys -> xs = ys.
Proof.
  unfold JSON_stringify. intros H. inversion H as [H'].
  exact (json_elements_inj xs ys EmptyString EmptyString H').
Qed.

Lemma JSON_stringify_eqb (xs ys : list (option string)) :
  String.eqb (JSON_stringify xs) (JSON_stringify ys) = true <-> xs = ys.
Proof.
  rewrite String.eqb_eq. split; [apply JSON_stringify_inj | now intros ->].
Qed.

End JsonFacts.

(** ** The order of the sort *)
Module OrderFacts.
Import Js SortOrder.

Lemma ascii_compare_lt_trans (a b c : ascii) :
  Ascii.compare a b = Lt -> Ascii.compare b c = Lt -> Ascii.compare a c = Lt.
Proof.
  unfold Ascii.compare. rewrite !N.compare_lt_iff. lia.
Qed.

Lemma string_compare_lt_trans (a b c : string) :
  String.compare a b = Lt -> String.compare b c = Lt -> String.compare a c = Lt.
Proof.
  revert b c; induction a as [|x a IH]; intros [|y b] [|z c]; simpl;
    try discriminate; try reflexivity.
  destruct (Ascii.compare x y) eqn:Exy; try discriminate;
    destruct (Ascii.compare y z) eqn:Eyz; try discriminate; intros H1 H2.
  - apply Ascii.compare_eq_iff in Exy, Eyz. subst.
    assert (E : Ascii.compare z z = Eq).
    { unfold Ascii.compare. apply N.compare_refl. }
    rewrite E. now apply (IH b c).
  - apply Ascii.compare_eq_iff in Exy. subst. now rewrite Eyz.
  - apply Ascii.compare_eq_iff in Eyz. subst. now rewrite Exy.
  - now rewrite (ascii_compare_lt_trans x y z Exy Eyz).
Qed.

Lemma string_leb_lt_or_eq (a b : string) :
  String.leb a b = true <-> String.compare a b = Lt \/ a = b.
Proof.
  unfold String.leb. split.
  - destruct (String.compare a b) eqn:E; try discriminate; intros _.
    + right. now apply String.compare_eq_iff.
    + now left.
  - intros [H | ->].
    + now rewrite H.
    + destruct (String.leb_total b b) as [H|H]; exact H.
Qed.

Lemma string_leb_trans (a b c : string) :
  String.leb a b = true -> String.leb b c = true -> String.leb a c = true.
Proof.
  rewrite !string_leb_lt_or_eq. intros [H1 | ->] [H2 | ->]; auto.
  left. exact (string_compare_lt_trans a b c H1 H2).
Qed.

Lemma sort_le_trans (x y z : option string) :
  sort_le x y = true -> sort_le y z = true -> sort_le x z = true.
Proof.
  destruct x as [a|], y as [b|], z as [c|]; simpl; try discriminate; auto.
  apply string_leb_trans.
Qed.


#[local] Instance sort_le_Transitive : Transitive le.
Proof. intros x y z. apply sort_le_trans. Qed.

Lemma sort_insert_perm (x : option string) (xs : list (option string)) :
  Permutation (sort_insert x xs) (x :: xs).
Proof.
  induction xs as [|y xs IH]; simpl; [reflexivity|].
  destruct (sort_le x y); [reflexivity|].
  rewrite IH. apply perm_swap.
Qed.

Lemma sort_perm (xs : list (option string)) : Permutation (Js.sort xs) xs.
Proof.
  induction xs as [|x xs IH]; simpl; [reflexivity|].
  rewrite sort_insert_perm. now constructor.
Qed.

Lemma sort_insert_sorted (x : option string) (xs : list (option string)) :
  Sorted le xs -> Sorted le (sort_insert x xs).
Proof.
  induction xs as [|y xs IH]; simpl; intros H.
  - repeat constructor.
  - destruct (sort_le x y) eqn:E.
    + constructor; [exact H | constructor; exact E].
    + inversion H as [|? ? Hs Hh]; subst.
      constructor; [now apply IH|].
      assert (Hyx : le y x).
      { destruct (JsFacts.sort_le_total x y) as [H1|H1]; [congruence | exact H1]. }
      destruct xs as [|z xs]; simpl.
      * constructor. exact Hyx.
      * destruct (sort_le x z); constructor; [exact Hyx|].
        now inversion Hh.
Qed.

Lemma sort_sorted (xs : list (option string)) : Sorted le (Js.sort xs).
Proof.
  induction xs as [|x xs IH]; simpl; [constructor | now apply sort_insert_sorted].
Qed.

(** Two sorted lists with the same elements are the same list: values that
    compare equal are equal. *)
Lemma sorted_perm_unique (xs ys : list (option string)) :
  StronglySorted le xs -> StronglySorted le ys -> Permutation xs ys -> xs = ys.
Proof.
  revert ys; induction xs as [|x xs IH]; intros ys Hx Hy P.
  - now apply Permutation_nil in P.
  - destruct ys as [|y ys].
    + apply Permutation_sym, Permutation_nil in P. discriminate.
    + inversion Hx as [|? ? Hxs Hxall]; inversion Hy as [|? ? Hys Hyall]; subst.
      assert (E : x = y).
      { assert (Ix : In x (y :: ys)) by (apply (Permutation_in _ P); now left).
        assert (Iy : In y (x :: xs))
          by (apply (Permutation_in _ (Permutation_sym P)); now left).
        destruct Ix as [->|Ix]; [reflexivity|].
        destruct Iy as [->|Iy]; [reflexivity|].
        rewrite Forall_forall in Hxall, Hyall.
        apply JsFacts.sort_le_antisym; [apply Hxall | apply Hyall]; assumption. }
      subst y. f_equal. apply IH; auto.
      now apply Permutation_cons_inv in P.
Qed.

Lemma ordered_Sorted (R : option string -> option string -> bool)
      (xs : list (option string)) :
  TableView.ordered R xs = true <-> Sorted (fun x y => R x y = true) xs.
Proof.
  induction xs as [|x xs IH]; simpl.
  - split; [constructor | reflexivity].
  - destruct xs as [|y xs].
    + split; [repeat constructor | reflexivity].
    + rewrite andb_true_iff, IH. split.
      * intros [H1 H2]. constructor; [exact H2 | constructor; exact H1].
      * intros H. inversion H as [|? ? Hs Hh]; subst. inversion Hh; subst. now split.
Qed.

Lemma StronglySorted_snoc (R : option string -> option string -> Prop)
      (xs : list (option string)) (x : option string) :
  StronglySorted R xs -> Forall (fun a => R a x) xs -> StronglySorted R (xs ++ [x]).
Proof.
  induction xs as [|a xs IH]; simpl; intros Hs Hall.
  - repeat constructor.
  - inversion Hs as [|? ? Hs' Ha]; inversion Hall as [|? ? Hax Hall']; subst.
    constructor; [now apply IH|].
    apply Forall_app. split; [exact Ha | now constructor].
Qed.

Lemma StronglySorted_rev (R : option string -> option string -> Prop)
      (xs : list (option string)) :
  StronglySorted R xs -> StronglySorted (fun x y => R y x) (rev xs).
Proof.
  induction xs as [|x xs IH]; simpl; intros H; [constructor|].
  inversion H as [|? ? Hs Hall]; subst.
  apply StronglySorted_snoc; [now apply IH|].
  apply Forall_rev. exact Hall.
Qed.

#[local] Instance sort_ge_Transitive : Transitive ge.
Proof. intros x y z H1 H2. exact (sort_le_trans z y x H2 H1). Qed.

Lemma sort_strongly_sorted (xs : list (option string)) : StronglySorted le (Js.sort xs).
Proof. apply Sorted_StronglySorted; [exact sort_le_Transitive | apply sort_sorted]. Qed.

(** The sort is the one sorted arrangement of the array: whatever
    algorithm an engine runs, this is the array it leaves. *)
Lemma sort_is_the_sorted_arrangement (xs ys : list (option string)) :
  Permutation ys xs -> Sorted le ys -> ys = Js.sort xs.
Proof.
  intros P H. apply sorted_perm_unique.
  - apply Sorted_StronglySorted; [exact sort_le_Transitive | exact H].
  - apply sort_strongly_sorted.
  - rewrite sort_perm. exact P.
Qed.

(** The array equals its sort exactly when it is in ascending order. *)
Lemma sort_fixed_iff_ordered (xs : list (option string)) :
  Js.sort xs = xs <-> TableView.ordered sort_le xs = true.
Proof.
  rewrite ordered_Sorted. split.
  - intros <-. apply sort_sorted.
  - intros H. apply sorted_perm_unique.
    + apply sort_strongly_sorted.
    + apply Sorted_StronglySorted; [exact sort_le_Transitive | exact H].
    + apply sort_perm.
Qed.

(** The array equals its reversed sort exactly when it is in descending
    order. *)
Lemma reversed_sort_fixed_iff_ordered (xs : list (option string)) :
  Js.reverse (Js.sort xs) = xs
  <-> TableView.ordered (fun x y => sort_le y x) xs = true.
Proof.
  rewrite ordered_Sorted. unfold Js.reverse. split.
  - intros <-. apply StronglySorted_Sorted.
    apply (StronglySorted_rev le). apply sort_strongly_sorted.
  - intros H.
    assert (Hs : StronglySorted ge xs)
      by (apply Sorted_StronglySorted; [exact sort_ge_Transitive | exact H]).
    apply (StronglySorted_rev ge) in Hs.
    assert (E : Js.sort xs = rev xs).
    { apply sorted_perm_unique.
      - apply sort_strongly_sorted.
      - exact Hs.
      - rewrite sort_perm. apply Permutation_rev. }
    rewrite E. apply rev_involutive.
Qed.

End OrderFacts.

(** ** Order of a column *)
Module SortFacts.
Import Js.

Lemma all_equal_repeat {A : Type} (v : A) (xs : list A) :
  (forall x, In x xs -> x = v) -> xs = repeat v (List.length xs).
Proof.
  induction xs as [|x xs IH]; intros H; simpl; [reflexivity|].
  rewrite (H x (or_introl eq_refl)). f_equal. apply IH. intros y Hy. apply H. now right.
Qed.

Lemma sort_repeat (v : option string) (n : nat) : sort (repeat v n) = repeat v n.
Proof.
  induction n as [|n IH]; simpl; [reflexivity|].
  rewrite IH. destruct n; simpl; [reflexivity|].
  now rewrite JsFacts.sort_le_refl.
Qed.

Lemma rev_repeat_same {A : Type} (v : A) (n : nat) : rev (repeat v n) = repeat v n.
Proof.
  induction n as [|n IH]; simpl; [reflexivity|].
  rewrite IH. symmetry. apply repeat_cons.
Qed.

Lemma sort_short (xs : list (option string)) :
  (List.length xs <= 1)%nat -> sort xs = xs /\ reverse (sort xs) = xs.
Proof.
  destruct xs as [|x [|y xs]]; simpl; intros H; try lia; split; reflexivity.
Qed.

End SortFacts.

Module SortClaims.
Import Locator Dom TablePage TableView TableFacts.

Lemma isColumnSortedAscending_column (c : nat) (t : Table) :
  isColumnSortedAscending new c t
  = let column := map (fun row => Js.index (trimmed_cells row) c) t in
    Ok (String.eqb (Js.JSON_stringify column) (Js.JSON_stringify (Js.sort column))).
Proof.
  unfold isColumnSortedAscending, bind. rewrite getAllTableData_rows. unfold ret.
  now rewrite map_map.
Qed.

Lemma isColumnSortedDescending_column (c : nat) (t : Table) :
  isColumnSortedDescending new c t
  = let column := map (fun row => Js.index (trimmed_cells row) c) t in
    Ok (String.eqb (Js.JSON_stringify column)
          (Js.JSON_stringify (Js.reverse (Js.sort column)))).
Proof.
  unfold isColumnSortedDescending, bind. rewrite getAllTableData_rows. unfold ret.
  now rewrite map_map.
Qed.

(** C10.  The two checks judge the order of the cell texts of the column
    by the comparison of strings, code unit by code unit ([undefined], the
    cell a row lacks, after every string): the ascending check returns
    [true] exactly when each value is at most the next, the descending
    check exactly when each value is at least the next.  It is not the
    order of numbers: the column ["2", "10"] is reported as not ascending
    (and as descending).  Both checks return [true] on a table of at most
    one row, and on a table whose column holds one and the same value in
    every row. *)
Theorem column_order_is_by_code_units :
  (forall (t : Table) (c : nat),
      let column := map (fun row => Js.index (trimmed_cells row) c) t in
      isColumnSortedAscending new c t = Ok (ordered Js.sort_le column)
      /\ isColumnSortedDescending new c t
         = Ok (ordered (fun x y => Js.sort_le y x) column))
  /\ (isColumnSortedAscending new 0 [tr ["2"%string]; tr ["10"%string]] = Ok false
   /\ isColumnSortedDescending new 0 [tr ["2"%string]; tr ["10"%string]] = Ok true
   /\ isColumnSortedAscending new 0 [tr ["10"%string]; tr ["2"%string]] = Ok true)
  /\ (forall (t : Table) (c : nat),
         (List.length t <= 1)%nat ->
         isColumnSortedAscending new c t = Ok true
         /\ isColumnSortedDescending new c t = Ok true)
  /\ (forall (t : Table) (c : nat) (v : option string),
         (forall row, In row t -> Js.index (trimmed_cells row) c = v) ->
         isColumnSortedAscending new c t = Ok true
         /\ isColumnSortedDescending new c t = Ok true).
Proof.
  split; [|split; [|split]].
  - intros t c column.
    rewrite isColumnSortedAscending_column, isColumnSortedDescending_column; cbv zeta.
    fold column. split; f_equal; apply Bool.eq_true_iff_eq;
      rewrite JsonFacts.JSON_stringify_eqb.
    + rewrite <- OrderFacts.sort_fixed_iff_ordered. split; intros H; now symmetry.
    + rewrite <- OrderFacts.reversed_sort_fixed_iff_ordered. split; intros H; now symmetry.
  - repeat split; reflexivity.
  - intros t c Hlen.
    rewrite isColumnSortedAscending_column, isColumnSortedDescending_column; cbv zeta.
    destruct (SortFacts.sort_short (map (fun row => Js.index (trimmed_cells row) c) t))
      as [E1 E2]; [now rewrite length_map|].
    rewrite E2, E1, String.eqb_refl. now split.
  - intros t c v Hall.
    rewrite isColumnSortedAscending_column, isColumnSortedDescending_column; cbv zeta.
    rewrite (SortFacts.all_equal_repeat v (map (fun row => Js.index (trimmed_cells row) c) t)).
    + unfold Js.reverse.
      rewrite SortFacts.sort_repeat, SortFacts.rev_repeat_same, String.eqb_refl.
      now split.
    + intros x Hx. apply in_map_iff in Hx. destruct Hx as [row [<- Hrow]].
      now apply Hall.
Qed.

(** Three rows with ["b"] in column 0. *)
Lemma column_order_is_by_code_units_witness :
  isColumnSortedAscending new 0 [tr ["b"%string]; tr ["b"%string]; tr ["b"%string]] = Ok true
  /\ isColumnSortedDescending new 0 [tr ["b"%string]; tr ["b"%string]; tr ["b"%string]] = Ok true.
Proof.
  apply (proj2 (proj2 (proj2 column_order_is_by_code_units))
           [tr ["b"%string]; tr ["b"%string]; tr ["b"%string]] 0%nat (Some "b"%string)).
  intros row [<- | [<- | [<- | []]]]; reflexivity.
Defined.

End SortClaims.

(** ** The driver session *)
Module DriverFacts.
Import Driver.

Lemma EventKind_eqb_refl (k : EventKind) : EventKind_eqb k k = true.
Proof. destruct k; reflexivity. Qed.

Lemma lookup_delivered (p : nat) (e : Payload) (ls : list (nat * EventKind))
      (old : list (nat * Payload)) :
  In (p, kind_of e) ls ->
  lookup p (map (fun l => (fst l, e)) (filter (listens (kind_of e)) ls) ++ old) = Some e.
Proof.
  induction ls as [|[q k] ls IH]; simpl; intros H; [contradiction|].
  destruct H as [H|H].
  - inversion H; subst. unfold listens; simpl.
    rewrite EventKind_eqb_refl; simpl. now rewrite Nat.eqb_refl.
  - destruct (listens (kind_of e) (q, k)); simpl; auto.
    destruct (Nat.eqb p q); auto.
Qed.

Lemma in_last {A : Type} (x : A) (xs : list A) : In x (xs ++ [x]).
Proof. apply in_or_app. right. now left. Qed.

Lemma deliver_log (e : Payload) (x : Step) (s : Session) :
  deliver e (log x s) = log x (deliver e s).
Proof. reflexivity. Qed.

Lemma fold_deliver_log (es : list Payload) (x : Step) (s : Session) :
  fold_left (fun acc e => deliver e acc) es (log x s)
  = log x (fold_left (fun acc e => deliver e acc) es s).
Proof.
  revert s; induction es as [|e es IH]; intros s; simpl; [reflexivity|].
  now rewrite deliver_log, IH.
Qed.

Lemma flush_log (x : Step) (s : Session) : flush (log x s) = log x (flush s).
Proof. unfold flush. simpl. now rewrite <- fold_deliver_log. Qed.

Lemma fold_deliver_trace (es : list Payload) (s : Session) :
  trace (fold_left (fun acc e => deliver e acc) es s) = trace s.
Proof. revert s; induction es as [|e es IH]; intros s; simpl; [reflexivity | now rewrite IH]. Qed.

Lemma flush_trace (s : Session) : trace (flush s) = trace s.
Proof. unfold flush. now rewrite fold_deliver_trace. Qed.

Lemma fold_deliver_in_flight (es : list Payload) (s : Session) :
  in_flight (fold_left (fun acc e => deliver e acc) es s) = in_flight s.
Proof. revert s; induction es as [|e es IH]; intros s; simpl; [reflexivity | now rewrite IH]. Qed.

Lemma flush_in_flight (s : Session) : in_flight (flush s) = [].
Proof. unfold flush. now rewrite fold_deliver_in_flight. Qed.

Lemma flush_idle (s : Session) :
  in_flight s = [] ->
  listeners (flush s) = listeners s /\ settled (flush s) = settled s.
Proof. unfold flush. intros ->. simpl. now split. Qed.

Lemma click_trace (site : Target -> option Reaction) (t : Target) (s : Session) :
  trace (snd (click site t s)) = trace s ++ [Clicked t; AwaitedClick t].
Proof.
  unfold click, bind, click_start, await_click, throw.
  destruct (site t) as [[[e|] [|]]|]; simpl; rewrite flush_trace, <- app_assoc; reflexivity.
Qed.

Lemma try_catch_click (site : Target -> option Reaction) (t : Target) (s : Session) :
  fst (try_catch (click site t) s) = Ok tt
  /\ snd (try_catch (click site t) s) = snd (click site t s).
Proof.
  unfold try_catch. destruct (click site t s) as [[[]|e] s']; split; reflexivity.
Qed.

Lemma fold_deliver_thrown (es : list Payload) (s : Session) :
  thrown (fold_left (fun acc e => deliver e acc) es s) = thrown s.
Proof. revert s; induction es as [|e es IH]; intros s; simpl; [reflexivity | now rewrite IH]. Qed.

Lemma flush_thrown (s : Session) : thrown (flush s) = thrown s.
Proof. unfold flush. now rewrite fold_deliver_thrown. Qed.

Lemma bind_throw {A B : Type} (m : Task A) (k : A -> Task B) (s : Session) (e : JsError) :
  fst (m s) = Throw e -> fst (bind m k s) = Throw e.
Proof.
  unfold bind. destruct (m s) as [[a|e'] s']; simpl; [discriminate|].
  intros H. now inversion H.
Qed.

Lemma bind_ok {A B : Type} (m : Task A) (k : A -> Task B) (s : Session) (a : A) :
  fst (m s) = Ok a -> bind m k s = k a (snd (m s)).
Proof.
  unfold bind. destruct (m s) as [[a'|e'] s']; simpl; [|discriminate].
  now inversion 1.
Qed.

Lemma skipn_exact {A : Type} (xs ys : list A) : skipn (List.length xs) (xs ++ ys) = ys.
Proof. induction xs; simpl; auto. Qed.

Lemma skipn_whole {A : Type} (xs : list A) : skipn (List.length xs) xs = [].
Proof. induction xs; simpl; auto. Qed.

(** Unfolds an operation down to the steps of the session. *)
Ltac run_operation :=
  unfold Observing.perform, FileDownloadPage.downloadFileByName,
    WindowsPage.clickLinkOpeningNewWindow, FileUploadPage.uploadViaFileChooser,
    bind, ret, waitForEvent, click, bind, click_start, await_click, await_promise,
    waitForLoadState, setFiles, settle, throw, note, unlisten, flush, log,
    Observing.steps_between;
  simpl.

(** ** Tasks that let every error out *)
Section Surfacing.
Import Calls.
Variable site : Target -> option Reaction.
Variable fs : string -> option Buffer.
Variable utf8 : Buffer -> string.

Lemma surfaces_ret {A : Type} (a : A) : surfaces (ret a).
Proof. intros s. reflexivity. Qed.

Lemma surfaces_throw {A : Type} (e : JsError) : surfaces (@throw A e).
Proof. intros s. reflexivity. Qed.

Lemma surfaces_bind {A B : Type} (m : Task A) (k : A -> Task B) :
  surfaces m -> (forall a, surfaces (k a)) -> surfaces (bind m k).
Proof.
  intros Hm Hk s. unfold bind. specialize (Hm s).
  destruct (m s) as [[a|e] s1]; [|exact Hm].
  specialize (Hk a s1). destruct (k a s1) as [[b|e] s2]; now rewrite Hk, Hm.
Qed.

Lemma surfaces_waitForEvent (k : EventKind) : surfaces (waitForEvent k).
Proof. intros s. reflexivity. Qed.

Lemma surfaces_click (t : Target) : surfaces (click site t).
Proof.
  intros s. unfold click, bind, click_start, await_click, throw.
  destruct (site t) as [[[e|] [|]]|]; simpl; now rewrite flush_thrown.
Qed.

Lemma surfaces_await_promise (p : nat) : surfaces (await_promise p).
Proof.
  intros s. unfold await_promise, settle, throw.
  destruct (lookup p _); simpl; now rewrite flush_thrown.
Qed.

Lemma surfaces_waitForLoadState (pg : Payload) : surfaces (waitForLoadState pg).
Proof.
  intros s. unfold waitForLoadState, throw.
  destruct pg as [? ?|url [|]|?]; reflexivity.
Qed.

Lemma surfaces_download_path (d : Payload) : surfaces (download_path d).
Proof.
  intros s. unfold download_path.
  destruct d as [? [path|e]|? ?|?]; reflexivity.
Qed.

Lemma surfaces_readFileSync (path : string) : surfaces (readFileSync fs path).
Proof. intros s. unfold readFileSync. destruct (fs path); reflexivity. Qed.

Lemma surfaces_readFileSync_utf8 (path : string) : surfaces (readFileSync_utf8 fs utf8 path).
Proof.
  apply surfaces_bind; [apply surfaces_readFileSync | intros; apply surfaces_ret].
Qed.

Lemma surfaces_setFiles (chooser : Payload) (path : string) :
  surfaces (setFiles fs chooser path).
Proof. intros s. unfold setFiles, throw. destruct (fs path); reflexivity. Qed.

Lemma surfaces_downloadFileByName (filename : string) :
  surfaces (FileDownloadPage.downloadFileByName site filename).
Proof.
  unfold FileDownloadPage.downloadFileByName.
  apply surfaces_bind; [apply surfaces_waitForEvent | intros p].
  apply surfaces_bind; [apply surfaces_click | intros _].
  apply surfaces_bind; [apply surfaces_await_promise | intros d; apply surfaces_ret].
Qed.

Lemma surfaces_downloadAndReadText (filename : string) :
  surfaces (FileDownloadPage.downloadAndReadText site fs utf8 filename).
Proof.
  unfold FileDownloadPage.downloadAndReadText.
  apply surfaces_bind; [apply surfaces_downloadFileByName | intros d].
  apply surfaces_bind; [apply surfaces_download_path | intros filePath].
  destruct (Js.falsy filePath); [apply surfaces_throw|].
  apply surfaces_bind; [apply surfaces_readFileSync_utf8 | intros; apply surfaces_ret].
Qed.

Lemma surfaces_downloadAndReadBuffer (filename : string) :
  surfaces (FileDownloadPage.downloadAndReadBuffer site fs filename).
Proof.
  unfold FileDownloadPage.downloadAndReadBuffer.
  apply surfaces_bind; [apply surfaces_downloadFileByName | intros d].
  apply surfaces_bind; [apply surfaces_download_path | intros filePath].
  destruct (Js.falsy filePath); [apply surfaces_throw | apply surfaces_readFileSync].
Qed.

Lemma surfaces_clickLinkOpeningNewWindow (linkText : string) :
  surfaces (WindowsPage.clickLinkOpeningNewWindow site linkText).
Proof.
  unfold WindowsPage.clickLinkOpeningNewWindow.
  apply surfaces_bind; [apply surfaces_waitForEvent | intros p].
  apply surfaces_bind; [apply surfaces_click | intros _].
  apply surfaces_bind; [apply surfaces_await_promise | intros newPage].
  apply surfaces_bind; [apply surfaces_waitForLoadState | intros _; apply surfaces_ret].
Qed.

Lemma surfaces_uploadViaFileChooser (path_join : list string -> string)
      (dirname filename : string) :
  surfaces (FileUploadPage.uploadViaFileChooser site fs path_join dirname filename).
Proof.
  unfold FileUploadPage.uploadViaFileChooser.
  apply surfaces_bind; [apply surfaces_waitForEvent | intros p].
  apply surfaces_bind; [apply surfaces_click | intros _].
  apply surfaces_bind; [apply surfaces_await_promise | intros chooser].
  apply surfaces_setFiles.
Qed.

Lemma click_thrown (t : Target) (s : Session) :
  exists more, thrown (snd (click site t s)) = thrown s ++ more.
Proof.
  pose proof (surfaces_click t s) as H.
  destruct (click site t s) as [[a|e] s']; simpl.
  - exists []. now rewrite app_nil_r.
  - exists [e]. exact H.
Qed.

Lemma click_absent_thrown (t : Target) (s : Session) :
  site t = None -> thrown (snd (click site t s)) = thrown s ++ [TimeoutError for_locator].
Proof.
  intros H. unfold click, bind, click_start, await_click, throw. rewrite H. simpl.
  now rewrite flush_thrown.
Qed.

Lemma surfaces_thrown_between {A : Type} (m : Task A) (s : Session) :
  surfaces m ->
  thrown_between s (snd (m s))
  = match fst (m s) with
    | Ok _ => []
    | Throw e => [e]
    end.
Proof.
  intros H. specialize (H s). unfold thrown_between.
  destruct (m s) as [[a|e] s']; simpl; rewrite H;
    [apply skipn_whole | apply skipn_exact].
Qed.
End Surfacing.

Section Runs.
Variable site : Target -> option Reaction.

(** The listener that [waitForEvent] registers first and a click that
    makes the page emit [e], at either time: the promise settles with [e],
    and nothing is left on its way. *)
Lemma subscribe_click_await (k : EventKind) (t : Target) (e : Payload) (tm : Timing)
      (s : Session) :
  in_flight s = [] ->
  site t = Some {| emits := Some e; timing := tm |} ->
  kind_of e = k ->
  exists s',
    bind (waitForEvent k) (fun p =>
      bind (click site t) (fun _ => await_promise p)) s = (Ok e, s')
    /\ trace s' = trace s ++ [Subscribed k (next_promise s); Clicked t; AwaitedClick t;
                              AwaitedPromise (next_promise s)]
    /\ in_flight s' = [].
Proof.
  intros Hq Hsite Hk. destruct s as [L S F n T X]; simpl in Hq; subst F k.
  unfold bind, waitForEvent, click, bind, click_start, await_click, await_promise,
    settle, flush, log; simpl.
  rewrite Hsite; simpl.
  destruct tm; simpl.
  - rewrite (lookup_delivered n e (L ++ [(n, kind_of e)]) S (in_last _ _)).
    eexists; split; [reflexivity|]. simpl. split; [|reflexivity].
    now rewrite <- !app_assoc.
  - rewrite (lookup_delivered n e (L ++ [(n, kind_of e)]) S (in_last _ _)).
    eexists; split; [reflexivity|]. simpl. split; [|reflexivity].
    now rewrite <- !app_assoc.
Qed.

(** The listener that [waitForEvent] registers and a click on a target
    that never shows up: the click throws, and the listener stays
    registered, its promise not awaited. *)
Lemma subscribe_click_fails {A : Type} (k : EventKind) (t : Target)
      (rest : nat -> Task A) (s : Session) :
  in_flight s = [] ->
  site t = None ->
  exists s',
    bind (waitForEvent k) (fun p => bind (click site t) (fun _ => rest p)) s
    = (Throw (TimeoutError for_locator), s')
    /\ listeners s' = listeners s ++ [(next_promise s, k)]
    /\ in_flight s' = []
    /\ trace s' = trace s ++ [Subscribed k (next_promise s); Clicked t; AwaitedClick t].
Proof.
  intros Hq Hsite. destruct s as [L S F n T X]; simpl in Hq; subst F.
  unfold bind, waitForEvent, click, bind, click_start, await_click, throw, note, flush, log;
    simpl.
  rewrite Hsite; simpl. eexists; split; [reflexivity|]. simpl.
  repeat split. now rewrite <- !app_assoc.
Qed.
End Runs.

(** [downloadFileByName] gets the download its click starts. *)
Lemma downloadFileByName_gets_the_download
      (site : Target -> option Reaction) (filename : string) (s : Session)
      (e : Payload) (tm : Timing) :
  in_flight s = [] ->
  site (getByRole "link" filename) = Some {| emits := Some e; timing := tm |} ->
  kind_of e = download ->
  fst (FileDownloadPage.downloadFileByName site filename s) = Ok e.
Proof.
  intros Hq Hsite Hk. destruct s as [L S F n T X]; simpl in Hq; subst F.
  run_operation. rewrite Hsite; simpl.
  assert (Hl := lookup_delivered n e (L ++ [(n, download)]) S).
  rewrite Hk in Hl. specialize (Hl (in_last _ _)).
  destruct tm; simpl; rewrite Hk, Hl; reflexivity.
Qed.

(** What the two reading methods do with a download whose [path()] gives
    [saved]. *)
Lemma reading_a_download
      (site : Target -> option Reaction) (fs : string -> option Buffer)
      (utf8 : Buffer -> string) (filename name : string) (saved : Outcome string)
      (tm : Timing) (s : Session) :
  in_flight s = [] ->
  site (getByRole "link" filename)
  = Some {| emits := Some (Download name saved); timing := tm |} ->
  fst (FileDownloadPage.downloadAndReadText site fs utf8 filename s)
  = match saved with
    | Throw err => Throw err
    | Ok path =>
        if Js.falsy path then Throw (Error "Download failed - no path returned")
        else match fs path with
             | Some content => Ok (utf8 content)
             | None => Throw (Error "ENOENT: no such file or directory")
             end
    end
  /\ fst (FileDownloadPage.downloadAndReadBuffer site fs filename s)
     = match saved with
       | Throw err => Throw err
       | Ok path =>
           if Js.falsy path then Throw (Error "Download failed - no path returned")
           else match fs path with
                | Some content => Ok content
                | None => Throw (Error "ENOENT: no such file or directory")
                end
       end.
Proof.
  intros Hq Hsite.
  assert (Hd := downloadFileByName_gets_the_download site filename s
                  (Download name saved) tm Hq Hsite eq_refl).
  unfold FileDownloadPage.downloadAndReadText, FileDownloadPage.downloadAndReadBuffer.
  rewrite (bind_ok _ _ _ _ Hd), (bind_ok _ (fun download => _) _ _ Hd).
  generalize (snd (FileDownloadPage.downloadFileByName site filename s)) as s1.
  intros s1. unfold bind, download_path, ret, readFileSync_utf8, readFileSync, bind, throw.
  destruct saved as [path|err]; simpl; [|split; reflexivity].
  destruct (Js.falsy path); simpl; [split; reflexivity|].
  destruct (fs path); split; reflexivity.
Qed.

End DriverFacts.

(** ** The operations that observe an event *)
Module ObservingClaims.
Import Driver Observing DriverFacts.




(** The scenario TC-D02 does await the two in a join, and gets the same
    payload. *)
Lemma TC_D02_awaits_in_a_join
      (site : Target -> option Reaction) (listener_first : bool) (filename : string)
      (s : Session) (e : Payload) (tm : Timing) :
  in_flight s = [] ->
  site (getByRole "link" filename) = Some {| emits := Some e; timing := tm |} ->
  kind_of e = download ->
  let run := FileDownloadPage.TC_D02_download site listener_first filename s in
  fst run = Ok e /\ awaited_together (steps_between s (snd run)) = true.
Proof.
  intros Hq Hsite Hk. destruct s as [L S F n T X]; simpl in Hq; subst F.
  unfold FileDownloadPage.TC_D02_download, Promise_all. run_operation.
  rewrite Hsite; simpl.
  assert (Hl := lookup_delivered n e (L ++ [(n, download)]) S).
  rewrite Hk in Hl. specialize (Hl (in_last _ _)).
  destruct tm; simpl; rewrite Hk, Hl; simpl;
    rewrite <- !app_assoc, skipn_exact; simpl; split; reflexivity.
Qed.

(** The order the comment warns against loses an event that comes before
    the click returns. *)
Lemma click_first_misses_the_event :
  fst (FileDownloadPage.click_first (Examples.practice_site before_click_returns)
         "some-file.txt" start) = Throw (TimeoutError for_event)
  /\ fst (FileDownloadPage.downloadFileByName (Examples.practice_site before_click_returns)
            "some-file.txt" start)
     = Ok (Download "some-file.txt" (Ok "/tmp/dl-1"%string)).
Proof. split; reflexivity. Qed.

End ObservingClaims.

(** ** Errors of the driver reach the caller *)
Module ErrorClaims.
Import Driver Observing Calls DriverFacts.

Lemma downloadAndReadText_propagates
      (site : Target -> option Reaction) (fs : string -> option Buffer)
      (utf8 : Buffer -> string) (filename : string) (s : Session) (err : JsError) :
  fst (FileDownloadPage.downloadFileByName site filename s) = Throw err ->
  fst (FileDownloadPage.downloadAndReadText site fs utf8 filename s) = Throw err
  /\ fst (FileDownloadPage.downloadAndReadBuffer site fs filename s) = Throw err.
Proof.
  intros H. split; apply bind_throw; exact H.
Qed.




(** On the example site: a link that starts no download, a download that
    failed, the download whose file is on disk, and the helper with no ad
    to dismiss. *)
Lemma example_errors :
  fst (FileDownloadPage.downloadFileByName (Examples.practice_site after_click_returns)
         "About" start) = Throw (TimeoutError for_event)
  /\ fst (FileDownloadPage.downloadAndReadText (Examples.practice_site after_click_returns)
            Examples.disk Examples.ascii_text "broken.bin" start)
     = Throw (Error "canceled")
  /\ fst (FileDownloadPage.downloadAndReadText (Examples.practice_site after_click_returns)
            Examples.disk Examples.ascii_text "some-file.txt" start)
     = Ok "Message: Welcome"%string
  /\ fst (Helpers.dismissAnyAds (Examples.practice_site after_click_returns) start) = Ok tt
  /\ fst (click (Examples.practice_site after_click_returns) closeAdButton start)
     = Throw (TimeoutError for_locator).
Proof. repeat split; reflexivity. Qed.

End ErrorClaims.

(** ** WindowsPage *)
Module WindowsClaims.
Import WindowsPage.
Local Open Scope Z_scope.

(** C8.  [switchToWindow] throws exactly when the index is greater than or
    equal to the number of open pages; for a negative index it does not
    throw and returns [undefined]; in between it returns the page at the
    index. *)
Theorem switchToWindow_guards_upper_bound_only
        (Page : Type) (pages : list Page) (index : Z) :
  ((exists e, switchToWindow pages index = Throw e) <-> Z.of_nat (List.length pages) <= index)
  /\ (index < 0 -> switchToWindow pages index = Ok None)
  /\ (0 <= index < Z.of_nat (List.length pages) ->
      exists p, nth_error pages (Z.to_nat index) = Some p
                /\ switchToWindow pages index = Ok (Some p)).
Proof.
  unfold switchToWindow, pages_at.
  destruct (Z.geb_spec index (Z.of_nat (List.length pages))) as [Hge|Hlt].
  - split; [|split].
    + split; [intros _; lia | intros _; eexists; reflexivity].
    + intros Hneg. lia.
    + intros [_ H]. lia.
  - split; [|split].
    + split; [intros [e He]; discriminate | intros H; lia].
    + intros Hneg. apply Z.ltb_lt in Hneg. now rewrite Hneg.
    + intros [H0 _]. destruct (Z.ltb_spec index 0) as [|_]; [lia|].
      destruct (nth_error pages (Z.to_nat index)) as [p|] eqn:E.
      * exists p. split; reflexivity.
      * apply nth_error_None in E. lia.
Qed.

(** Two open pages and the index [-1]. *)
Lemma switchToWindow_guards_upper_bound_only_witness :
  switchToWindow ["main"%string; "popup"%string] (-1) = Ok None.
Proof.
  apply (proj1 (proj2 (switchToWindow_guards_upper_bound_only
                         string%type ["main"%string; "popup"%string] (-1)))).
  reflexivity.
Defined.

Lemma switchToWindow_examples :
  switchToWindow ["main"%string; "popup"%string] 2 = Throw (Error "Window 2 does not exist")
  /\ switchToWindow ["main"%string; "popup"%string] 1 = Ok (Some "popup"%string)
  /\ switchToWindow (@nil string) 0 = Throw (Error "Window 0 does not exist").
Proof. repeat split; reflexivity. Qed.

End WindowsClaims.

(** ** Locators are resolved at each use *)
Module LocatorClaims.
Import Locator Scenario Dom.



End LocatorClaims.

(** ** Rows without cells *)
Module ExtractionClaims.
Import Locator Dom TablePage TableView TableFacts.

(** A row that lacks the column: [getColumnData] has [undefined] at its
    position, and [getCellText] throws the timeout of the driver. *)
Lemma absent_cell_is_not_the_empty_string (t : Table) (c i : nat) (row : Row) :
  nth_error t i = Some row ->
  has_column (Z.of_nat c) row = false ->
  (exists column, getColumnData new c t = Ok column /\ nth_error column i = Some None)
  /\ getCellText new (Z.of_nat i) (Z.of_nat c) t = Throw (TimeoutError for_locator).
Proof.
  intros Hrow Hcol. split.
  - eexists. split; [apply getColumnData_cells|].
    rewrite nth_error_map, Hrow; simpl. f_equal.
    unfold has_column, cell_at in Hcol. rewrite nth_match_of_nat in Hcol.
    unfold Js.index, trimmed_cells.
    rewrite !nth_error_map.
    destruct (nth_error (select_td row) c); [discriminate | reflexivity].
  - rewrite getCellText_cell, Hrow. unfold has_column in Hcol.
    destruct (cell_at (Z.of_nat c) row); [discriminate | reflexivity].
Qed.

(** C3, at a table whose only row has no cell.  [getAllTableData] and
    [getRowData] give the row as an empty array; [getColumnData] gives
    [undefined] for the absent cell, not the empty string; [getCellText]
    throws. *)
Theorem zero_cell_row_extraction :
  getAllTableData new [[]] = Ok [[]]
  /\ getRowData new 0 [[]] = Ok []
  /\ getColumnData new 0 [[]] = Ok [None]
  /\ getColumnData new 0 [[]] <> Ok [Some EmptyString]
  /\ getCellText new 0 0 [[]] = Throw (TimeoutError for_locator).
Proof.
  repeat split; try reflexivity. discriminate.
Qed.

End ExtractionClaims.

(** ** More of TablePage *)
Module TableMoreFacts.
Import Locator Dom TablePage TablePageColumns TableView TableFacts.
Local Open Scope Z_scope.

Lemma getColumnCount_first_row (t : Table) :
  getColumnCount new t
  = Ok (Z.of_nat (List.length (match t with
                               | [] => []
                               | row :: _ => select_td row
                               end))).
Proof.
  unfold getColumnCount, count, locator, nth; simpl.
  destruct t as [|row rest]; simpl; [reflexivity|].
  now rewrite app_nil_r.
Qed.

(** [nth] selects a match exactly for the positions from minus the number
    of matches up to, and not including, that number. *)
Lemma nth_match_bound {E : Type} (matches : list E) (i : Z) :
  (exists e, nth_match matches i = Some e)
  <-> - Z.of_nat (List.length matches) <= i < Z.of_nat (List.length matches).
Proof.
  unfold nth_match.
  destruct (Z.ltb_spec i 0) as [Hneg|Hpos].
  - destruct (Z.ltb_spec (Z.of_nat (List.length matches) + i) 0) as [Hout|Hin].
    + split; [intros [e H]; discriminate | lia].
    + split; [lia | intros _].
      destruct (nth_error matches (Z.to_nat (Z.of_nat (List.length matches) + i))) eqn:Hn;
        [eexists; reflexivity|].
      apply nth_error_None in Hn. lia.
  - destruct (nth_error matches (Z.to_nat i)) eqn:Hn.
    + split; [intros _ | intros _; eexists; reflexivity].
      assert (Z.to_nat i < List.length matches)%nat
        by (apply nth_error_Some; rewrite Hn; discriminate).
      lia.
    + apply nth_error_None in Hn. split; [intros [e' H]; discriminate | lia].
Qed.

Lemma cell_at_bound (c : Z) (row : Row) :
  (exists text, cell_at c row = Some text)
  <-> - Z.of_nat (List.length (select_td row)) <= c < Z.of_nat (List.length (select_td row)).
Proof.
  rewrite <- nth_match_bound. unfold cell_at.
  destruct (nth_match (select_td row) c) as [cell|]; simpl; split.
  - intros _. eexists; reflexivity.
  - intros _. eexists; reflexivity.
  - intros [text H]. discriminate.
  - intros [e H]. discriminate.
Qed.

(** The columns of the first row.  [getColumnCount] never throws: it is the
    number of cells of the first row, 0 on a table without rows.  On a
    table with a row of [n] cells, [getCellText(0, c)] gives a text exactly
    for the indices from [-n] up to, and not including, [n] (a negative
    index counts from the last cell), and the timeout of the locator for
    every other index. *)
Theorem getColumnCount_bounds_the_first_row (t : Table) :
  (t = [] -> getColumnCount new t = Ok 0)
  /\ (forall row rest,
         t = row :: rest ->
         let n := Z.of_nat (List.length (select_td row)) in
         getColumnCount new t = Ok n
         /\ (forall c, (exists text, getCellText new 0 c t = Ok text) <-> - n <= c < n)
         /\ (forall c, c < - n \/ n <= c ->
                       getCellText new 0 c t = Throw (TimeoutError for_locator))).
Proof.
  split.
  - intros ->. reflexivity.
  - intros row rest -> n. split; [apply getColumnCount_first_row|].
    assert (Hcell : forall c,
               getCellText new 0 c (row :: rest)
               = match cell_at c row with
                 | Some text => Ok text
                 | None => Throw (TimeoutError for_locator)
                 end).
    { intros c. exact (getCellText_cell (row :: rest) 0 c). }
    split; intros c.
    + rewrite Hcell. pose proof (cell_at_bound c row) as Hb. fold n in Hb.
      destruct (cell_at c row) as [text|]; split.
      * intros _. apply Hb. eexists; reflexivity.
      * intros _. eexists; reflexivity.
      * intros [text H]. discriminate.
      * intros H. apply Hb in H. destruct H as [text H]. discriminate.
    + intros Hout. rewrite Hcell. pose proof (cell_at_bound c row) as Hb. fold n in Hb.
      destruct (cell_at c row) as [text|]; [|reflexivity].
      exfalso. assert (- n <= c < n) by (apply Hb; eexists; reflexivity). lia.
Qed.

(** A row of two cells: the index [-1] reads the last cell, the index 2
    none. *)
Lemma getColumnCount_bounds_the_first_row_witness :
  getColumnCount new [tr ["Smith"%string; "John"%string]] = Ok 2
  /\ getCellText new 0 (-1) [tr ["Smith"%string; "John"%string]] = Ok "John"%string
  /\ getCellText new 0 2 [tr ["Smith"%string; "John"%string]] = Throw (TimeoutError for_locator).
Proof.
  destruct (proj2 (getColumnCount_bounds_the_first_row [tr ["Smith"%string; "John"%string]])
              (tr ["Smith"%string; "John"%string]) [] eq_refl) as [Hn [_ Hout]].
  split; [exact Hn | split; [reflexivity|]].
  apply Hout. right. simpl. lia.
Defined.

Lemma getRowData_at (t : Table) (i : Z) :
  getRowData new i t
  = Ok (match nth_match t i with
        | Some row => trimmed_cells row
        | None => []
        end).
Proof.
  unfold getRowData, getRow, bind. rewrite allTextContents_at. unfold ret.
  destruct (nth_match t i); reflexivity.
Qed.

(** [getAllTableData] and [getRowData] agree.  The data of the table has
    one entry per body row ([getRowCount] of them), the entry at position
    [i] is what [getRowData(i)] returns, and [getRowData] of a position
    beyond the last row is the empty array, not an error. *)
Theorem getAllTableData_is_getRowData_of_each_row (t : Table) :
  exists data,
    getAllTableData new t = Ok data
    /\ getRowCount new t = Ok (Z.of_nat (List.length data))
    /\ (forall i cells, nth_error data i = Some cells ->
                        getRowData new (Z.of_nat i) t = Ok cells)
    /\ (forall i, (List.length data <= i)%nat -> getRowData new (Z.of_nat i) t = Ok []).
Proof.
  exists (map trimmed_cells t). split; [apply getAllTableData_rows|].
  rewrite length_map. split; [apply getRowCount_length|]. split.
  - intros i cells H. rewrite nth_error_map in H. rewrite getRowData_at, nth_match_of_nat.
    destruct (nth_error t i); simpl in H; [now inversion H | discriminate].
  - intros i H. rewrite getRowData_at, nth_match_of_nat.
    apply nth_error_None in H. now rewrite H.
Qed.

Lemma getAllTableData_is_getRowData_of_each_row_witness :
  getRowData new (Z.of_nat 5) [tr ["Smith"%string]] = Ok [].
Proof.
  destruct (getAllTableData_is_getRowData_of_each_row [tr ["Smith"%string]])
    as [data [Hd [_ [_ Hout]]]].
  apply Hout. inversion Hd. simpl. lia.
Defined.

(** [getColumnData] has one value per body row, whatever the column, and
    the value at position [i] is [getRowData(i)[columnIndex]]. *)
Theorem getColumnData_one_value_per_row (t : Table) (c : nat) :
  exists column,
    getColumnData new c t = Ok column
    /\ getRowCount new t = Ok (Z.of_nat (List.length column))
    /\ (forall i value, nth_error column i = Some value ->
                        exists cells, getRowData new (Z.of_nat i) t = Ok cells
                                      /\ Js.index cells c = value).
Proof.
  eexists. split; [apply getColumnData_cells|].
  rewrite length_map. split; [apply getRowCount_length|].
  intros i value H. rewrite nth_error_map in H.
  destruct (nth_error t i) as [row|] eqn:E; simpl in H; [|discriminate].
  exists (trimmed_cells row). split; [now apply getRowData_row | now inversion H].
Qed.

Lemma getColumnData_one_value_per_row_witness :
  exists cells, getRowData new (Z.of_nat 1) [tr ["Smith"%string]; tr ["Bach"%string]] = Ok cells
                /\ Js.index cells 0 = Some "Bach"%string.
Proof.
  destruct (getColumnData_one_value_per_row [tr ["Smith"%string]; tr ["Bach"%string]] 0)
    as [column [Hc [_ Hv]]].
  apply (Hv 1%nat). inversion Hc. reflexivity.
Defined.

(** [getCellText] and [getRowData] on the same cell.  [getCellText(r, c)]
    returns the text of the cell that [c] selects in the row that [r]
    selects, as it is in the document; [getRowData(r)] holds the texts of
    the cells of that row, trimmed.  For a column index from 0 on, when
    [getCellText(r, c)] returns [text], [getRowData(r)[c]] is [text]
    trimmed, and [getCellText(r, c)] throws the timeout exactly when
    [getRowData(r)] has no entry at [c].  For a negative column index
    [getRowData(r)[c]] is [undefined], whatever [getCellText(r, c)]
    gives. *)
Theorem getCellText_is_untrimmed_getRowData (t : Table) (r c : Z) :
  exists cells,
    getRowData new r t = Ok cells
    /\ (forall text, getCellText new r c t = Ok text
                     <-> exists row, nth_match t r = Some row /\ cell_at c row = Some text)
    /\ (0 <= c ->
        (forall text, getCellText new r c t = Ok text ->
                      Js.item cells c = Some (Js.trim text))
        /\ (getCellText new r c t = Throw (TimeoutError for_locator)
            <-> Js.item cells c = None))
    /\ (c < 0 -> Js.item cells c = None).
Proof.
  eexists. split; [apply getRowData_at|].
  rewrite getCellText_at. split; [|split].
  - intros text. destruct (nth_match t r) as [row|].
    + destruct (cell_at c row) as [text'|] eqn:Hcell; split.
      * intros H. inversion H; subst. exists row. now split.
      * intros [row' [Hrow H]]. inversion Hrow; subst row'. congruence.
      * discriminate.
      * intros [row' [Hrow H]]. inversion Hrow; subst row'. congruence.
    + split; [discriminate | intros [row [H _]]; discriminate].
  - intros Hc.
    assert (Hitem : forall cells : list string,
               Js.item cells c = nth_error cells (Z.to_nat c)).
    { intros cells. unfold Js.item. destruct (Z.ltb_spec c 0); [lia | reflexivity]. }
    assert (Hcell : forall row,
               cell_at c row
               = option_map cell_text (nth_error (select_td row) (Z.to_nat c))).
    { intros row. unfold cell_at, nth_match.
      destruct (Z.ltb_spec c 0); [lia | reflexivity]. }
    rewrite Hitem. destruct (nth_match t r) as [row|].
    + rewrite Hcell. unfold trimmed_cells. rewrite !nth_error_map.
      destruct (nth_error (select_td row) (Z.to_nat c)) as [cell|]; simpl; split.
      * intros text H. now inversion H.
      * split; discriminate.
      * intros text H. discriminate.
      * split; reflexivity.
    + split; [intros text H; discriminate|].
      split; intros _; [now destruct (Z.to_nat c) | reflexivity].
  - intros Hc. unfold Js.item. destruct (Z.ltb_spec c 0) as [_|]; [reflexivity | lia].
Qed.

(** A cell with blanks around its text: [getCellText] gives the text with
    the blanks, [getRowData] without them. *)
Lemma getCellText_is_untrimmed_getRowData_witness :
  getCellText new 0 0 [tr [" Smith "%string]] = Ok " Smith "%string
  /\ Js.item [Js.trim " Smith "] 0 = Some (Js.trim " Smith ").
Proof.
  destruct (getCellText_is_untrimmed_getRowData [tr [" Smith "%string]] 0 0)
    as [cells [Hd [Hraw [Ht _]]]].
  inversion Hd; subst cells. split.
  - apply Hraw. exists (tr [" Smith "%string]). split; reflexivity.
  - exact (proj1 (Ht ltac:(lia)) " Smith "%string eq_refl).
Defined.

End TableMoreFacts.

(** ** More of the searches *)
Module SearchMoreFacts.
Import Locator Dom TablePage TableView TableFacts.
Local Open Scope Z_scope.

Lemma append_nil_r (s : string) : (s ++ EmptyString)%string = s.
Proof. induction s; simpl; congruence. Qed.

Lemma contains_refl (s : string) : contains s s.
Proof. exists EmptyString, EmptyString. simpl. now rewrite append_nil_r. Qed.

Lemma contains_trans (a b c : string) : contains a b -> contains b c -> contains a c.
Proof.
  intros [p1 [q1 ->]] [p2 [q2 ->]].
  exists (p1 ++ p2)%string, (q2 ++ q1)%string.
  now rewrite !JsonFacts.append_assoc.
Qed.

Lemma trimStart_split (s : string) : exists pre, s = (pre ++ Js.trimStart s)%string.
Proof.
  induction s as [|c s [pre IH]]; simpl.
  - now exists EmptyString.
  - destruct (Js.is_white_space c).
    + exists (String c pre). simpl. now rewrite <- IH.
    + now exists EmptyString.
Qed.

Lemma trimEnd_split (s : string) : exists post, s = (Js.trimEnd s ++ post)%string.
Proof.
  induction s as [|c s [post IH]]; simpl.
  - now exists EmptyString.
  - destruct (Js.trimEnd s) as [|k kept].
    + simpl in IH. destruct (Js.is_white_space c).
      * now exists (String c s).
      * exists s. reflexivity.
    + exists post. simpl. now rewrite IH.
Qed.

(** The trimmed text is a part of the text. *)
Lemma trim_contained (s : string) : contains s (Js.trim s).
Proof.
  unfold Js.trim. destruct (trimStart_split s) as [pre Hpre].
  destruct (trimEnd_split (Js.trimStart s)) as [post Hpost].
  exists pre, post. now rewrite <- Hpost.
Qed.

Lemma concat_cons (x : string) (xs : list string) :
  String.concat EmptyString (x :: xs) = (x ++ String.concat EmptyString xs)%string.
Proof. destruct xs; simpl; [now rewrite append_nil_r | reflexivity]. Qed.

Lemma concat_app (xs ys : list string) :
  String.concat EmptyString (xs ++ ys)
  = (String.concat EmptyString xs ++ String.concat EmptyString ys)%string.
Proof.
  induction xs as [|x xs IH].
  - reflexivity.
  - change ((x :: xs) ++ ys)%list with (x :: (xs ++ ys)).
    now rewrite !concat_cons, IH, JsonFacts.append_assoc.
Qed.

Lemma select_td_in (row : Row) (text : string) :
  In (td text) (select_td row) -> In (element "td" text) row.
Proof.
  unfold select_td. rewrite in_flat_map. intros [n [Hn Hc]].
  destruct n as [data | tag text']; simpl in Hc; [contradiction|].
  destruct (String.eqb_spec tag "td") as [->|]; simpl in Hc; [|contradiction].
  destruct Hc as [Hc|[]]. now inversion Hc; subst.
Qed.

(** The text of a cell is a part of the text of its row. *)
Lemma cell_in_row_text (c : Z) (row : Row) (text : string) :
  cell_at c row = Some text -> contains (row_text row) text.
Proof.
  unfold cell_at. destruct (nth_match (select_td row) c) as [[text']|] eqn:E;
    simpl; [|discriminate].
  intros H; inversion H; subst text'.
  apply nth_match_In, select_td_in, in_split in E. destruct E as [l1 [l2 ->]].
  unfold row_text. rewrite map_app, concat_app. simpl map. rewrite concat_cons.
  simpl node_text. eexists; eexists; reflexivity.
Qed.

Lemma cell_match_is_row_match (c : Z) (s : string) (row : Row) :
  cell_matches c s row = true -> row_matches s row = true.
Proof.
  unfold cell_matches, row_matches. destruct (cell_at c row) as [text|] eqn:E;
    [|discriminate].
  intros H. apply includes_contains. apply includes_contains in H.
  exact (contains_trans _ _ _ (cell_in_row_text c row text E) H).
Qed.

(** The three ends of [findRowIndexByCellContent], on every table, short
    rows included.  It returns [-1] only when every row has a cell in the
    column and none contains the text; it returns an index only of the
    first row whose cell contains the text, all rows up to it having the
    column; and it throws only the timeout, at the first row without a cell
    in the column, no row before it containing the text. *)
Theorem findRowIndexByCellContent_outcomes (t : Table) (c : Z) (s : string) :
  match findRowIndexByCellContent new c s t with
  | Ok r =>
      (r = -1 /\ forall row, In row t ->
                             has_column c row = true /\ cell_matches c s row = false)
      \/ (exists i, r = Z.of_nat i
                    /\ first_at (cell_matches c s) t i
                    /\ forall j row, (j <= i)%nat -> nth_error t j = Some row ->
                                     has_column c row = true)
  | Throw e =>
      e = TimeoutError for_locator
      /\ exists i row, nth_error t i = Some row
                       /\ has_column c row = false
                       /\ forall j rowj, (j < i)%nat -> nth_error t j = Some rowj ->
                                         has_column c rowj = true
                                         /\ cell_matches c s rowj = false
  end.
Proof.
  rewrite findRowIndexByCellContent_scan. exact (scan_cells_outcomes c s t 0).
Qed.

Lemma first_index_at_most {A : Type} (test : A -> bool) (xs : list A) (k off : nat) (x : A) :
  nth_error xs k = Some x -> test x = true ->
  exists j, (j <= k)%nat /\ first_index test xs off = Z.of_nat (off + j).
Proof.
  revert k off; induction xs as [|y xs IH]; intros k off Hk Hx.
  - destruct k; discriminate.
  - simpl. destruct (test y) eqn:Ey.
    + exists 0%nat. split; [lia | f_equal; lia].
    + destruct k as [|k]; simpl in Hk; [inversion Hk; subst; congruence|].
      destruct (IH k (S off) Hk Hx) as [j [Hj E]].
      exists (S j). split; [lia|]. rewrite E. f_equal. lia.
Qed.

(** A row found by the search of a column is found by the search of the
    whole row, at that index or before it: when
    [findRowIndexByCellContent(c, s)] returns the index [i],
    [findRowByContent(s)] returns an index [j] with [0 <= j <= i]. *)
Theorem found_in_a_cell_is_found_in_the_row (t : Table) (c : Z) (s : string) (i : nat) :
  findRowIndexByCellContent new c s t = Ok (Z.of_nat i) ->
  exists j, (j <= i)%nat /\ findRowByContent new s t = Ok (Z.of_nat j).
Proof.
  intros H. pose proof (scan_cells_outcomes c s t 0) as Hout.
  rewrite <- findRowIndexByCellContent_scan, H in Hout.
  destruct Hout as [[Hneg _] | [k [Hk [[[row [Hrow Hm]] _] _]]]]; [lia|].
  simpl in Hk. apply Nat2Z.inj in Hk. subst k.
  rewrite findRowByContent_first_index.
  destruct (first_index_at_most (row_matches s) t i 0 row Hrow
              (cell_match_is_row_match c s row Hm)) as [j [Hj E]].
  exists j. split; [exact Hj | now rewrite E].
Qed.

Lemma found_in_a_cell_is_found_in_the_row_witness :
  exists j, (j <= 1)%nat
            /\ findRowByContent new "Bach"
                 [tr ["Smith"%string; "Bach"%string]; tr ["Bach"%string; "Frank"%string]]
               = Ok (Z.of_nat j).
Proof.
  apply (found_in_a_cell_is_found_in_the_row
           [tr ["Smith"%string; "Bach"%string]; tr ["Bach"%string; "Frank"%string]]
           0 "Bach" 1).
  reflexivity.
Defined.

(** The scenario TC-T09, on every table.  When the first row has a cell in
    column [c], searching column [c] for the value [getRowData(0)[c]] gives
    0, and so does the search of the whole row. *)
Theorem first_row_value_is_found_first (t : Table) (row : Row) (rest : list Row) (c : nat) :
  t = row :: rest ->
  has_column (Z.of_nat c) row = true ->
  exists cells value,
    getRowData new 0 t = Ok cells
    /\ Js.index cells c = Some value
    /\ findRowIndexByCellContent new (Z.of_nat c) value t = Ok 0
    /\ findRowByContent new value t = Ok 0.
Proof.
  intros -> Hcol. unfold has_column in Hcol.
  destruct (cell_at (Z.of_nat c) row) as [text|] eqn:Ecell; [|discriminate].
  exists (trimmed_cells row), (Js.trim text).
  assert (Hinc : Js.includes text (Js.trim text) = true)
    by (apply includes_contains, trim_contained).
  split; [exact (getRowData_row (row :: rest) 0 row eq_refl)|]. split; [|split].
  - unfold Js.index, trimmed_cells. rewrite !nth_error_map.
    unfold cell_at in Ecell. rewrite nth_match_of_nat in Ecell.
    destruct (nth_error (select_td row) c); simpl in *; [|discriminate].
    now inversion Ecell.
  - rewrite findRowIndexByCellContent_scan. simpl. now rewrite Ecell, Hinc.
  - rewrite findRowByContent_first_index. simpl.
    assert (Hm : row_matches (Js.trim text) row = true).
    { apply (cell_match_is_row_match (Z.of_nat c)). unfold cell_matches. now rewrite Ecell. }
    now rewrite Hm.
Qed.

Lemma first_row_value_is_found_first_witness :
  exists cells value,
    getRowData new 0 [tr [" Smith "%string; "John"%string]; tr ["Smith"%string]] = Ok cells
    /\ Js.index cells 0 = Some value
    /\ findRowIndexByCellContent new 0 value
         [tr [" Smith "%string; "John"%string]; tr ["Smith"%string]] = Ok 0
    /\ findRowByContent new value
         [tr [" Smith "%string; "John"%string]; tr ["Smith"%string]] = Ok 0.
Proof.
  apply (first_row_value_is_found_first
           [tr [" Smith "%string; "John"%string]; tr ["Smith"%string]]
           (tr [" Smith "%string; "John"%string]) [tr ["Smith"%string]] 0%nat);
    reflexivity.
Defined.

End SearchMoreFacts.

(** ** More of the order checks *)
Module SortMoreFacts.
Import Locator Dom TablePage TableView ColumnView TableFacts SortOrder.

Lemma ascending_is_ordered (c : nat) (t : Table) :
  isColumnSortedAscending new c t = Ok (ordered Js.sort_le (column_of c t)).
Proof.
  rewrite SortClaims.isColumnSortedAscending_column; cbv zeta. fold (column_of c t).
  f_equal. apply Bool.eq_true_iff_eq. rewrite JsonFacts.JSON_stringify_eqb.
  rewrite <- OrderFacts.sort_fixed_iff_ordered. split; intros H; now symmetry.
Qed.

Lemma descending_is_ordered (c : nat) (t : Table) :
  isColumnSortedDescending new c t
  = Ok (ordered (fun x y => Js.sort_le y x) (column_of c t)).
Proof.
  rewrite SortClaims.isColumnSortedDescending_column; cbv zeta. fold (column_of c t).
  f_equal. apply Bool.eq_true_iff_eq. rewrite JsonFacts.JSON_stringify_eqb.
  rewrite <- OrderFacts.reversed_sort_fixed_iff_ordered. split; intros H; now symmetry.
Qed.

Lemma ordered_rev (xs : list (option string)) :
  ordered Js.sort_le xs = ordered (fun x y => Js.sort_le y x) (rev xs).
Proof.
  apply Bool.eq_true_iff_eq. rewrite !OrderFacts.ordered_Sorted. split; intros H.
  - apply StronglySorted_Sorted. apply (OrderFacts.StronglySorted_rev le).
    apply Sorted_StronglySorted; [exact OrderFacts.sort_le_Transitive | exact H].
  - rewrite <- (rev_involutive xs).
    apply StronglySorted_Sorted. apply (OrderFacts.StronglySorted_rev ge).
    apply Sorted_StronglySorted; [exact OrderFacts.sort_ge_Transitive | exact H].
Qed.

(** Turning the rows of the table upside down exchanges the two verdicts:
    a column is reported ascending exactly when the same column of the
    reversed table is reported descending. *)
Theorem ascending_is_descending_of_reversed (c : nat) (t : Table) :
  isColumnSortedAscending new c t = isColumnSortedDescending new c (rev t).
Proof.
  rewrite ascending_is_ordered, descending_is_ordered. f_equal.
  unfold column_of. rewrite map_rev. apply ordered_rev.
Qed.

Lemma both_orders_constant (xs : list (option string)) :
  ordered Js.sort_le xs = true ->
  ordered (fun x y => Js.sort_le y x) xs = true ->
  forall x y, In x xs -> In y xs -> x = y.
Proof.
  rewrite !OrderFacts.ordered_Sorted. intros Hle Hge.
  apply Sorted_StronglySorted in Hle; [|exact OrderFacts.sort_le_Transitive].
  apply (@Sorted_StronglySorted _ ge) in Hge; [|exact OrderFacts.sort_ge_Transitive].
  induction xs as [|a xs IH]; intros x y Hx Hy; [contradiction|].
  inversion Hle as [|? ? Hle' Hla]; inversion Hge as [|? ? Hge' Hga]; subst.
  rewrite Forall_forall in Hla, Hga.
  assert (Hall : forall z, In z xs -> z = a).
  { intros z Hz. apply JsFacts.sort_le_antisym; [apply Hga | apply Hla]; exact Hz. }
  destruct Hx as [<-|Hx], Hy as [<-|Hy].
  - reflexivity.
  - symmetry. now apply Hall.
  - now apply Hall.
  - rewrite (Hall x Hx). symmetry. now apply Hall.
Qed.

(** A column is reported both ascending and descending exactly when it
    holds one and the same value in every row. *)
Theorem both_verdicts_iff_constant (c : nat) (t : Table) :
  (isColumnSortedAscending new c t = Ok true
   /\ isColumnSortedDescending new c t = Ok true)
  <-> (forall x y, In x (column_of c t) -> In y (column_of c t) -> x = y).
Proof.
  rewrite ascending_is_ordered, descending_is_ordered. split.
  - intros [Ha Hd]. injection Ha as Ha. injection Hd as Hd.
    apply both_orders_constant; assumption.
  - intros Hconst.
    assert (E : column_of c t = repeat (hd None (column_of c t))
                                  (List.length (column_of c t))).
    { apply SortFacts.all_equal_repeat. intros x Hx.
      destruct (column_of c t) as [|a l]; [contradiction|].
      simpl. apply Hconst; [exact Hx | now left]. }
    assert (Hs : Js.sort (column_of c t) = column_of c t)
      by (rewrite E; apply SortFacts.sort_repeat).
    assert (Hr : Js.reverse (Js.sort (column_of c t)) = column_of c t)
      by (rewrite Hs, E; apply SortFacts.rev_repeat_same).
    apply OrderFacts.sort_fixed_iff_ordered in Hs.
    apply OrderFacts.reversed_sort_fixed_iff_ordered in Hr.
    now rewrite Hs, Hr.
Qed.

Lemma both_verdicts_iff_constant_witness :
  isColumnSortedAscending new 0 [tr ["b"%string]; tr ["b"%string]] = Ok true
  /\ isColumnSortedDescending new 0 [tr ["b"%string]; tr ["b"%string]] = Ok true.
Proof.
  apply (proj2 (both_verdicts_iff_constant 0 [tr ["b"%string]; tr ["b"%string]])).
  simpl. intros x y [Hx | [Hx | []]] [Hy | [Hy | []]]; now rewrite <- Hx, <- Hy.
Defined.

End SortMoreFacts.

(** ** More of WindowsPage *)
Module WindowsMoreFacts.
Import WindowsPage WindowsContext.
Local Open Scope Z_scope.

(** [switchToLastWindow] is [switchToWindow] at the last index.  On every
    context, [switchToWindow(getWindowCount() - 1)] does not throw and
    returns what [switchToLastWindow] returns: the page opened last, or
    [undefined] when no page is open. *)
Theorem switchToLastWindow_is_switchToWindow_at_last (P : Type) (pages : list P) :
  switchToWindow pages (getWindowCount pages - 1) = Ok (switchToLastWindow pages)
  /\ (pages = [] -> switchToLastWindow pages = None)
  /\ (forall earlier p, pages = earlier ++ [p] -> switchToLastWindow pages = Some p).
Proof.
  unfold switchToWindow, switchToLastWindow, getWindowCount. split; [|split].
  - destruct (Z.geb_spec (Z.of_nat (List.length pages) - 1) (Z.of_nat (List.length pages)));
      [lia | reflexivity].
  - intros ->. reflexivity.
  - intros earlier p ->. unfold pages_at. rewrite length_app; simpl.
    destruct (Z.ltb_spec (Z.of_nat (List.length earlier + 1) - 1) 0); [lia|].
    replace (Z.to_nat (Z.of_nat (List.length earlier + 1) - 1))
      with (List.length earlier) by lia.
    apply TableFacts.nth_error_middle.
Qed.

Lemma switchToLastWindow_is_switchToWindow_at_last_witness :
  switchToLastWindow ["main"%string; "popup"%string] = Some "popup"%string.
Proof.
  apply (proj2 (proj2 (switchToLastWindow_is_switchToWindow_at_last
                         string%type ["main"%string; "popup"%string]))
           ["main"%string] "popup"%string).
  reflexivity.
Defined.

(** The scenario TC-W04, on every context.  In a context of distinct
    pages, [switchToWindow] returns the same page for two indices only if
    the indices are equal: different open windows are never confused. *)
Theorem switchToWindow_tells_windows_apart (pages : list Page) (i j : Z) (p q : Page) :
  distinct pages ->
  switchToWindow pages i = Ok (Some p) ->
  switchToWindow pages j = Ok (Some q) ->
  same_page p q = true ->
  i = j.
Proof.
  unfold switchToWindow, pages_at, distinct. intros Hd Hi Hj Hs.
  destruct (Z.geb_spec i (Z.of_nat (List.length pages))); [discriminate|].
  destruct (Z.geb_spec j (Z.of_nat (List.length pages))); [discriminate|].
  destruct (Z.ltb_spec i 0); [discriminate|].
  destruct (Z.ltb_spec j 0); [discriminate|].
  inversion Hi as [Hi']. inversion Hj as [Hj'].
  apply Nat.eqb_eq in Hs.
  assert (E : Z.to_nat i = Z.to_nat j).
  { apply (proj1 (NoDup_nth_error (map page_id pages)) Hd).
    - rewrite length_map. lia.
    - rewrite !nth_error_map, Hi', Hj'. simpl. now rewrite Hs. }
  lia.
Qed.

Lemma switchToWindow_tells_windows_apart_witness :
  (1 = 1)%Z.
Proof.
  apply (switchToWindow_tells_windows_apart
    [ {| page_id := 0; page_title := "Windows"; page_url := "/windows" |};
      {| page_id := 1; page_title := "New Window"; page_url := "/windows/new" |} ]
    1 1
    {| page_id := 1; page_title := "New Window"; page_url := "/windows/new" |}
    {| page_id := 1; page_title := "New Window"; page_url := "/windows/new" |}).
  - unfold distinct; simpl. repeat constructor; simpl; intuition discriminate.
  - reflexivity.
  - reflexivity.
  - reflexivity.
Defined.

Lemma findWindowByTitle_find (title : string) (pages : list Page) :
  findWindowByTitle title pages
  = find (fun p => Js.includes (page_title p) title) pages.
Proof. induction pages as [|p pages IH]; simpl; [reflexivity | now rewrite IH]. Qed.

Lemma findWindowByURL_find (urlPattern : UrlPattern) (pages : list Page) :
  findWindowByURL urlPattern pages
  = find (fun p => url_matches urlPattern (page_url p)) pages.
Proof.
  induction pages as [|p pages IH]; simpl; [reflexivity|].
  destruct urlPattern; simpl in *; now rewrite IH.
Qed.

Lemma find_first {A : Type} (test : A -> bool) (xs : list A) :
  match find test xs with
  | Some x => exists i, nth_error xs i = Some x /\ TableView.first_at test xs i
  | None => TableView.none_of test xs
  end.
Proof.
  induction xs as [|y xs IH]; simpl.
  - intros x [].
  - destruct (test y) eqn:Ey.
    + exists 0%nat. split; [reflexivity|]. split; [exists y; now split|].
      intros j z Hj. lia.
    + destruct (find test xs) as [x|].
      * destruct IH as [i [Hi [[w [Hw Tw]] F]]].
        exists (S i). split; [exact Hi|]. split; [exists w; now split|].
        intros [|j] z Hj Hz; simpl in Hz.
        -- now inversion Hz; subst.
        -- apply (F j z); [lia | exact Hz].
      * intros x [<-|Hx]; [exact Ey | now apply IH].
Qed.

(** [findWindowByTitle] returns the first page, in the order of the
    context, whose title contains the text, and [null] exactly when no
    title contains it.  So a page is found by its own title unless an
    earlier page's title contains that title, and the empty text finds the
    first page. *)
Theorem findWindowByTitle_first_containing (title : string) (pages : list Page) :
  match findWindowByTitle title pages with
  | Some p =>
      exists i, nth_error pages i = Some p
                /\ TableView.first_at (fun q => Js.includes (page_title q) title) pages i
  | None => forall q, In q pages -> Js.includes (page_title q) title = false
  end
  /\ (forall p, In p pages ->
                (forall q, In q pages -> same_page q p = false ->
                           Js.includes (page_title q) (page_title p) = false) ->
                exists found, findWindowByTitle (page_title p) pages = Some found
                              /\ same_page found p = true)
  /\ (forall first rest, pages = first :: rest ->
                         findWindowByTitle EmptyString pages = Some first).
Proof.
  split; [|split].
  - rewrite findWindowByTitle_find. apply find_first.
  - intros p Hp Hothers. rewrite findWindowByTitle_find.
    destruct (find (fun q => Js.includes (page_title q) (page_title p)) pages)
      as [found|] eqn:E.
    + exists found. split; [reflexivity|].
      apply find_some in E. destruct E as [Hin Hinc].
      destruct (same_page found p) eqn:Es; [reflexivity|].
      rewrite (Hothers found Hin Es) in Hinc. discriminate.
    + apply (find_none _ _ E) in Hp.
      assert (Js.includes (page_title p) (page_title p) = true)
        by (apply TableFacts.includes_contains, SearchMoreFacts.contains_refl).
      congruence.
  - intros first rest ->. simpl. now rewrite JsFacts.includes_empty.
Qed.

Lemma findWindowByTitle_first_containing_witness :
  findWindowByTitle EmptyString
    [ {| page_id := 0; page_title := "Windows"; page_url := "/windows" |};
      {| page_id := 1; page_title := "New Window"; page_url := "/windows/new" |} ]
  = Some {| page_id := 0; page_title := "Windows"; page_url := "/windows" |}.
Proof.
  apply (proj2 (proj2 (findWindowByTitle_first_containing EmptyString
    [ {| page_id := 0; page_title := "Windows"; page_url := "/windows" |};
      {| page_id := 1; page_title := "New Window"; page_url := "/windows/new" |} ]))
    {| page_id := 0; page_title := "Windows"; page_url := "/windows" |}
    [ {| page_id := 1; page_title := "New Window"; page_url := "/windows/new" |} ]).
  reflexivity.
Defined.

(** [findWindowByURL] returns the first page whose address matches the
    pattern (a text by containment, a regular expression by its test) and
    [null] exactly when no address matches; the address of an open page,
    given as text, always finds a page. *)
Theorem findWindowByURL_first_matching (urlPattern : UrlPattern) (pages : list Page) :
  match findWindowByURL urlPattern pages with
  | Some p =>
      exists i, nth_error pages i = Some p
                /\ TableView.first_at (fun q => url_matches urlPattern (page_url q)) pages i
  | None => forall q, In q pages -> url_matches urlPattern (page_url q) = false
  end
  /\ (forall p, In p pages ->
                exists found, findWindowByURL (pattern_string (page_url p)) pages = Some found
                              /\ Js.includes (page_url found) (page_url p) = true).
Proof.
  split.
  - rewrite findWindowByURL_find. apply find_first.
  - intros p Hp. rewrite findWindowByURL_find.
    destruct (find (fun q => url_matches (pattern_string (page_url p)) (page_url q)) pages)
      as [found|] eqn:E.
    + exists found. split; [reflexivity|]. apply find_some in E. apply E.
    + apply (find_none _ _ E) in Hp. simpl in Hp.
      assert (Js.includes (page_url p) (page_url p) = true)
        by (apply TableFacts.includes_contains, SearchMoreFacts.contains_refl).
      congruence.
Qed.

Lemma findWindowByURL_first_matching_witness :
  exists found,
    findWindowByURL (pattern_string "/windows/new")
      [ {| page_id := 0; page_title := "Windows"; page_url := "/windows" |};
        {| page_id := 1; page_title := "New Window"; page_url := "/windows/new" |} ]
    = Some found
    /\ Js.includes (page_url found) "/windows/new" = true.
Proof.
  apply (proj2 (findWindowByURL_first_matching (pattern_string "/windows/new")
    [ {| page_id := 0; page_title := "Windows"; page_url := "/windows" |};
      {| page_id := 1; page_title := "New Window"; page_url := "/windows/new" |} ])
    {| page_id := 1; page_title := "New Window"; page_url := "/windows/new" |}).
  right. now left.
Defined.

Lemma filter_all {A : Type} (xs : list A) : filter (fun _ => true) xs = xs.
Proof. induction xs; simpl; congruence. Qed.

Lemma filter_filter {A : Type} (f g : A -> bool) (xs : list A) :
  filter f (filter g xs) = filter (fun x => g x && f x) xs.
Proof.
  induction xs as [|x xs IH]; simpl; [reflexivity|].
  destruct (g x); simpl; [destruct (f x)|]; now rewrite IH.
Qed.

(** What the loop leaves: the pages no closed page is. *)
Lemma closeAllExceptMain_loop_filter (pages : list Page) (mainPage : option Page)
      (context : list Page) :
  closeAllExceptMain_loop pages mainPage context
  = filter (fun q => negb (existsb (fun p => differs p mainPage && same_page p q) pages))
      context.
Proof.
  revert context; induction pages as [|p pages IH]; intros context; simpl.
  - symmetry. apply filter_all.
  - rewrite IH. destruct (differs p mainPage); simpl.
    + unfold close. rewrite filter_filter. apply filter_ext. intros q.
      now rewrite negb_orb.
    + reflexivity.
Qed.

Lemma same_page_refl (p : Page) : same_page p p = true.
Proof. apply Nat.eqb_refl. Qed.

Lemma same_page_sym (p q : Page) : same_page p q = same_page q p.
Proof. apply Nat.eqb_sym. Qed.

(** [closeAllExceptMain] leaves exactly the first page of the context.  On
    a context of distinct pages with the main page first, the context
    after the call holds the main page and nothing else (one window is
    left); on an empty context it does nothing. *)
Theorem closeAllExceptMain_leaves_the_main_page (context : list Page) :
  (forall main others,
      context = main :: others ->
      distinct context ->
      closeAllExceptMain context = [main]
      /\ getWindowCount (closeAllExceptMain context) = 1
      /\ closeAllExceptMain (closeAllExceptMain context) = closeAllExceptMain context)
  /\ (context = [] -> closeAllExceptMain context = []).
Proof.
  split; [|intros ->; reflexivity].
  intros main others -> Hd.
  assert (E : closeAllExceptMain (main :: others) = [main]).
  { unfold closeAllExceptMain. rewrite closeAllExceptMain_loop_filter.
    unfold distinct in Hd. simpl in Hd. inversion Hd as [|? ? Hnotin Hd']; subst.
    simpl. rewrite same_page_refl; simpl.
    assert (Hmain : existsb (fun p => negb (same_page p main) && same_page p main) others
                    = false).
    { clear. induction others as [|p others IH]; simpl; [reflexivity|].
      rewrite IH. now destruct (same_page p main). }
    rewrite Hmain; simpl. f_equal.
    assert (Hall : forall q, In q others ->
                   existsb (fun p => negb (same_page p main) && same_page p q) others = true).
    { intros q Hq. apply existsb_exists. exists q. split; [exact Hq|].
      rewrite same_page_refl, andb_true_r. apply negb_true_iff.
      unfold same_page. apply Nat.eqb_neq. intros Heq. apply Hnotin.
      rewrite <- Heq. now apply in_map. }
    clear Hmain Hd' Hnotin Hd.
    assert (Hgen : forall l, (forall q, In q l -> In q others) ->
              filter (fun q => negb (existsb
                 (fun p => negb (same_page p main) && same_page p q) others)) l
              = []).
    { induction l as [|q l IH]; intros Hsub; simpl; [reflexivity|].
      rewrite (Hall q (Hsub q (or_introl eq_refl))). simpl.
      apply IH. intros z Hz. apply Hsub. now right. }
    apply Hgen. auto. }
  split; [exact E|]. rewrite E. split; [reflexivity|].
  unfold closeAllExceptMain; simpl. now rewrite same_page_refl.
Qed.

Lemma closeAllExceptMain_leaves_the_main_page_witness :
  closeAllExceptMain
    [ {| page_id := 0; page_title := "Windows"; page_url := "/windows" |};
      {| page_id := 1; page_title := "New Window"; page_url := "/windows/new" |};
      {| page_id := 2; page_title := "New Window"; page_url := "/windows/new" |} ]
  = [ {| page_id := 0; page_title := "Windows"; page_url := "/windows" |} ].
Proof.
  apply (proj1 (closeAllExceptMain_leaves_the_main_page
    [ {| page_id := 0; page_title := "Windows"; page_url := "/windows" |};
      {| page_id := 1; page_title := "New Window"; page_url := "/windows/new" |};
      {| page_id := 2; page_title := "New Window"; page_url := "/windows/new" |} ])
    {| page_id := 0; page_title := "Windows"; page_url := "/windows" |}
    [ {| page_id := 1; page_title := "New Window"; page_url := "/windows/new" |};
      {| page_id := 2; page_title := "New Window"; page_url := "/windows/new" |} ]
    eq_refl).
  unfold distinct; simpl. repeat constructor; simpl; intuition discriminate.
Defined.

End WindowsMoreFacts.

(** ** More of the download, upload and window operations *)
Module DriverMoreFacts.
Import Driver Observing DriverFacts.

(** [dismissAnyAds] tries all three clicks, in order, whatever each of
    them meets: on every page and in every session it returns normally and
    has then issued and awaited the click on the ad's close button, the one
    on the "Close" button and the one on the cross, a failure of one not
    keeping it from the next. *)
Theorem dismissAnyAds_tries_every_click (site : Target -> option Reaction) (s : Session) :
  fst (Helpers.dismissAnyAds site s) = Ok tt
  /\ trace (snd (Helpers.dismissAnyAds site s))
     = trace s ++ [Clicked closeAdButton; AwaitedClick closeAdButton;
                   Clicked (getByRole "button" "Close");
                   AwaitedClick (getByRole "button" "Close");
                   Clicked (getByText Helpers.times); AwaitedClick (getByText Helpers.times)].
Proof.
  unfold Helpers.dismissAnyAds, bind.
  destruct (try_catch_click site closeAdButton s) as [H1 S1].
  destruct (try_catch (click site closeAdButton) s) as [r1 s1]; simpl in H1, S1; subst r1.
  destruct (try_catch_click site (getByRole "button" "Close") s1) as [H2 S2].
  destruct (try_catch (click site (getByRole "button" "Close")) s1) as [r2 s2];
    simpl in H2, S2; subst r2.
  destruct (try_catch_click site (getByText Helpers.times) s2) as [H3 S3].
  destruct (try_catch (click site (getByText Helpers.times)) s2) as [r3 s3];
    simpl in H3, S3; subst r3.
  split; [reflexivity|]. simpl. subst s3 s2 s1.
  rewrite !click_trace, <- !app_assoc. reflexivity.
Qed.



(** What the two reading methods read.  When no earlier event is still on
    its way and the click starts a download saved at a path that is not
    empty, [downloadAndReadBuffer] returns the bytes of the file at that
    path and [downloadAndReadText] their decoding as UTF-8; when no file
    is there, both throw the error of the file system. *)
Theorem downloadAndReadText_reads_the_download
        (site : Target -> option Reaction) (fs : string -> option Buffer)
        (utf8 : Buffer -> string)
        (filename name path : string) (tm : Timing) (s : Session) :
  in_flight s = [] ->
  site (getByRole "link" filename)
  = Some {| emits := Some (Download name (Ok path)); timing := tm |} ->
  path <> EmptyString ->
  (forall content,
      fs path = Some content ->
      fst (FileDownloadPage.downloadAndReadBuffer site fs filename s) = Ok content
      /\ fst (FileDownloadPage.downloadAndReadText site fs utf8 filename s)
         = Ok (utf8 content))
  /\ (fs path = None ->
      exists message,
        fst (FileDownloadPage.downloadAndReadBuffer site fs filename s)
        = Throw (Error message)
        /\ fst (FileDownloadPage.downloadAndReadText site fs utf8 filename s)
           = Throw (Error message)).
Proof.
  intros Hq Hsite Hpath.
  destruct (reading_a_download site fs utf8 filename name (Ok path) tm s Hq Hsite)
    as [Ht Hb].
  assert (Hf : Js.falsy path = false) by (now apply String.eqb_neq).
  rewrite Hf in Ht, Hb. rewrite Ht, Hb. split.
  - intros content ->. split; reflexivity.
  - intros ->. eexists. split; reflexivity.
Qed.

Lemma downloadAndReadText_reads_the_download_witness :
  fst (FileDownloadPage.downloadAndReadBuffer (Examples.practice_site after_click_returns)
         Examples.disk "some-file.txt" start)
  = Ok (list_byte_of_string "Message: Welcome")
  /\ fst (FileDownloadPage.downloadAndReadText (Examples.practice_site after_click_returns)
            Examples.disk Examples.ascii_text "some-file.txt" start)
     = Ok (Examples.ascii_text (list_byte_of_string "Message: Welcome")).
Proof.
  apply (proj1 (downloadAndReadText_reads_the_download
                  (Examples.practice_site after_click_returns) Examples.disk
                  Examples.ascii_text
                  "some-file.txt"%string "some-file.txt"%string "/tmp/dl-1"%string
                  after_click_returns start
                  eq_refl eq_refl ltac:(discriminate))).
  reflexivity.
Defined.

(** An event observed is not yet a success.  When the new page opens and
    never loads, [clickLinkOpeningNewWindow] throws the timeout of
    [waitForLoadState] instead of returning the page; when the file chooser
    opens and the fixture is not on disk, [uploadViaFileChooser] throws the
    error of [setFiles]. *)
Theorem observed_event_then_failure
        (site : Target -> option Reaction) (fs : string -> option Buffer)
        (path_join : list string -> string) (dirname : string)
        (s : Session) (tm : Timing) :
  in_flight s = [] ->
  (forall linkText url,
      site (getByRole "link" linkText)
      = Some {| emits := Some (NewPage url false); timing := tm |} ->
      fst (WindowsPage.clickLinkOpeningNewWindow site linkText s)
      = Throw (TimeoutError for_load_state))
  /\ (forall filename input,
         site FileUploadPage.dropZone
         = Some {| emits := Some (FileChooser input); timing := tm |} ->
         fs (path_join [dirname; "../fixtures"%string; filename]) = None ->
         exists message,
           fst (FileUploadPage.uploadViaFileChooser site fs path_join dirname filename s)
           = Throw (Error message)).
Proof.
  intros Hq. destruct s as [L S F n T]; simpl in Hq; subst F. split.
  - intros linkText url Hsite. run_operation. rewrite Hsite; simpl.
    assert (Hl := lookup_delivered n (NewPage url false) (L ++ [(n, page)]) S (in_last _ _)).
    simpl in Hl. destruct tm; simpl; rewrite Hl; reflexivity.
  - intros filename input Hsite Hfs. run_operation. rewrite Hsite; simpl.
    assert (Hl := lookup_delivered n (FileChooser input) (L ++ [(n, filechooser)]) S
                    (in_last _ _)).
    simpl in Hl. destruct tm; simpl; rewrite Hl; simpl; rewrite Hfs;
      eexists; reflexivity.
Qed.

Lemma observed_event_then_failure_witness :
  exists message,
    fst (FileUploadPage.uploadViaFileChooser (Examples.practice_site before_click_returns)
           Examples.disk Examples.join Examples.dirname "missing.txt" start)
    = Throw (Error message).
Proof.
  apply (proj2 (observed_event_then_failure
                  (Examples.practice_site before_click_returns) Examples.disk
                  Examples.join Examples.dirname start before_click_returns eq_refl)
           "missing.txt"%string "file-input"%string); reflexivity.
Defined.

Lemma downloadFileByName_run
      (site : Target -> option Reaction) (filename : string) (s : Session)
      (e : Payload) (tm : Timing) :
  in_flight s = [] ->
  site (getByRole "link" filename) = Some {| emits := Some e; timing := tm |} ->
  kind_of e = download ->
  exists s', FileDownloadPage.downloadFileByName site filename s = (Ok e, s')
             /\ in_flight s' = [].
Proof.
  intros Hq Hsite Hk. destruct s as [L S F n T]; simpl in Hq; subst F.
  run_operation. rewrite Hsite; simpl.
  assert (Hl := lookup_delivered n e (L ++ [(n, download)]) S).
  rewrite Hk in Hl. specialize (Hl (in_last _ _)).
  destruct tm; simpl; rewrite Hk, Hl; eexists; split; reflexivity.
Qed.

(** Each call observes its own download.  Two calls of
    [downloadFileByName] in a row, in a session with no event under way,
    return the download of the first link and then the download of the
    second: the listener of the first call, already settled, takes nothing
    from the second. *)
Theorem consecutive_downloads_keep_apart
        (site : Target -> option Reaction) (first second : string) (s : Session)
        (e1 e2 : Payload) (tm1 tm2 : Timing) :
  in_flight s = [] ->
  site (getByRole "link" first) = Some {| emits := Some e1; timing := tm1 |} ->
  site (getByRole "link" second) = Some {| emits := Some e2; timing := tm2 |} ->
  kind_of e1 = download -> kind_of e2 = download ->
  fst (bind (FileDownloadPage.downloadFileByName site first) (fun d1 =>
       bind (FileDownloadPage.downloadFileByName site second) (fun d2 =>
       ret (d1, d2))) s)
  = Ok (e1, e2).
Proof.
  intros Hq H1 H2 K1 K2.
  destruct (downloadFileByName_run site first s e1 tm1 Hq H1 K1) as [s1 [R1 Q1]].
  destruct (downloadFileByName_run site second s1 e2 tm2 Q1 H2 K2) as [s2 [R2 _]].
  unfold bind. now rewrite R1, R2.
Qed.

Lemma consecutive_downloads_keep_apart_witness :
  fst (bind (FileDownloadPage.downloadFileByName
               (Examples.practice_site after_click_returns) "some-file.txt")
         (fun d1 =>
          bind (FileDownloadPage.downloadFileByName
                  (Examples.practice_site after_click_returns) "broken.bin")
            (fun d2 => ret (d1, d2))) start)
  = Ok (Download "some-file.txt" (Ok "/tmp/dl-1"%string),
        Download "broken.bin" (Throw (Error "canceled"))).
Proof.
  apply (consecutive_downloads_keep_apart
           (Examples.practice_site after_click_returns) "some-file.txt" "broken.bin" start
           (Download "some-file.txt" (Ok "/tmp/dl-1"%string))
           (Download "broken.bin" (Throw (Error "canceled")))
           after_click_returns after_click_returns); reflexivity.
Defined.

End DriverMoreFacts.

(** ** The list of the files on offer *)
Module DownloadListFacts.
Import Locator DownloadList.

Lemma innerText_nth (d : Document) (i : nat) (a : Anchor) :
  nth_error (links d) i = Some a ->
  innerText (nth links (Z.of_nat i)) d = Ok (anchor_innerText a).
Proof.
  intros H. unfold innerText, nth. now rewrite TableFacts.nth_match_of_nat, H.
Qed.

Lemma getDownloadableFiles_loop_map (d : Document) (rest done : list Anchor)
      (filenames : list string) :
  links d = done ++ rest ->
  getDownloadableFiles_loop (List.length rest) (List.length done) filenames d
  = Ok (filenames ++ map (fun a => Js.trim (anchor_innerText a)) rest).
Proof.
  revert done filenames; induction rest as [|a rest IH]; intros done filenames H; simpl.
  - unfold ret. now rewrite app_nil_r.
  - unfold bind at 1. rewrite (innerText_nth d (List.length done) a).
    + specialize (IH (done ++ [a]) (filenames ++ [Js.trim (anchor_innerText a)])).
      rewrite <- !app_assoc, length_app, Nat.add_1_r in IH. now apply IH.
    + rewrite H. apply TableFacts.nth_error_middle.
Qed.

(** [getDownloadableFiles] lists the links to downloads, and only them.  It
    never throws; it returns the trimmed text of every link whose [href]
    starts with [download/], in document order, so a name is in the list
    exactly when such a link shows it; links elsewhere are left out, and a
    page without such links gives the empty list. *)
Theorem getDownloadableFiles_lists_the_download_links (d : Document) :
  exists files,
    getDownloadableFiles d = Ok files
    /\ files = map (fun a => Js.trim (anchor_innerText a))
                 (filter (fun a => String.prefix "download/" (href a)) d)
    /\ (forall name,
           In name files
           <-> exists a, In a d
                         /\ String.prefix "download/" (href a) = true
                         /\ Js.trim (anchor_innerText a) = name)
    /\ ((forall a, In a d -> String.prefix "download/" (href a) = false) -> files = []).
Proof.
  eexists. split; [|split; [reflexivity|split]].
  - unfold getDownloadableFiles, bind, count. rewrite Nat2Z.id.
    exact (getDownloadableFiles_loop_map d (links d) [] [] eq_refl).
  - intros name. rewrite in_map_iff. split.
    + intros [a [Hn Ha]]. apply filter_In in Ha. exists a. tauto.
    + intros [a [Ha [Hp Hn]]]. exists a. split; [exact Hn|]. apply filter_In. tauto.
  - intros Hnone. simpl.
    induction d as [|a d IH]; simpl; [reflexivity|].
    rewrite (Hnone a (or_introl eq_refl)). apply IH. intros b Hb. apply Hnone. now right.
Qed.

Lemma getDownloadableFiles_lists_the_download_links_witness :
  getDownloadableFiles
    [ {| href := "download/some-file.txt"; anchor_innerText := " some-file.txt " |};
      {| href := "/about"; anchor_innerText := "About" |};
      {| href := "download/wdio.png"; anchor_innerText := "wdio.png" |} ]
  = Ok ["some-file.txt"%string; "wdio.png"%string].
Proof.
  destruct (getDownloadableFiles_lists_the_download_links
    [ {| href := "download/some-file.txt"; anchor_innerText := " some-file.txt " |};
      {| href := "/about"; anchor_innerText := "About" |};
      {| href := "download/wdio.png"; anchor_innerText := "wdio.png" |} ])
    as [files [Hrun [Hfiles _]]].
  rewrite Hrun, Hfiles. reflexivity.
Defined.

End DownloadListFacts.

(** ** User names *)
Module UsersFacts.
Import Users.
Local Open Scope string_scope.

Lemma digits_no_hyphen (d : Decimal.uint) :
  has_hyphen (NilEmpty.string_of_uint d) = false
  /\ username_chars (NilEmpty.string_of_uint d) = true.
Proof. induction d; simpl; try (destruct IHd as [H1 H2]; rewrite ?H1, ?H2); split; reflexivity. Qed.

Lemma time_digits (now : Z) :
  (0 <= now)%Z ->
  has_hyphen (WindowsPage.Z_to_string now) = false
  /\ username_chars (WindowsPage.Z_to_string now) = true.
Proof.
  intros H. unfold WindowsPage.Z_to_string.
  destruct now as [|p|p]; [split; reflexivity | | lia].
  simpl. unfold NilZero.string_of_uint.
  destruct (Pos.to_uint p); try apply digits_no_hyphen. split; reflexivity.
Qed.

Lemma Z_to_string_inj (a b : Z) :
  WindowsPage.Z_to_string a = WindowsPage.Z_to_string b -> a = b.
Proof.
  unfold WindowsPage.Z_to_string. intros H. apply DecimalZ.to_int_inj.
  assert (Hread : forall z, NilZero.int_of_string (NilZero.string_of_int (Z.to_int z))
                            = Some (Z.to_int z)).
  { intros z. apply NilZero.isi; destruct z as [|p|p]; simpl; intros E;
      try discriminate; inversion E as [E'];
      exact (DecimalPos.Unsigned.to_uint_nonnil p E'). }
  apply (f_equal NilZero.int_of_string) in H. rewrite !Hread in H. now inversion H.
Qed.

Lemma has_hyphen_after (a b : string) : has_hyphen (a ++ String hyphen b) = true.
Proof.
  induction a as [|c a IH]; simpl.
  - reflexivity.
  - rewrite IH. apply orb_true_r.
Qed.

Lemma split_at_last_hyphen (p1 p2 d1 d2 : string) :
  p1 ++ String hyphen d1 = p2 ++ String hyphen d2 ->
  has_hyphen d1 = false -> has_hyphen d2 = false ->
  p1 = p2 /\ d1 = d2.
Proof.
  revert p2; induction p1 as [|c p1 IH]; intros [|c' p2] H H1 H2; simpl in H.
  - inversion H. now split.
  - inversion H as [[Hc Hd]]. rewrite Hd, has_hyphen_after in H1. discriminate.
  - inversion H as [[Hc Hd]]. rewrite <- Hd, has_hyphen_after in H2. discriminate.
  - inversion H as [[Hc Hrest]]. destruct (IH p2 Hrest H1 H2) as [-> ->]. now split.
Qed.

Lemma username_chars_app (a b : string) :
  username_chars (a ++ b) = username_chars a && username_chars b.
Proof.
  induction a as [|c a IH]; simpl; [reflexivity|].
  now rewrite IH, andb_assoc.
Qed.

Lemma prefix_of_append (a b : string) : String.prefix a (a ++ b) = true.
Proof. apply JsFacts.prefix_app. now exists b. Qed.

(** [uniqueUsername] tells the calls apart by their instant.  For instants
    at or after the epoch, two calls give the same name only with the same
    prefix at the same millisecond: with one prefix, different instants
    give different names.  The name starts with the prefix, and it stays in
    the alphabet of user names (lowercase letters, digits, hyphens) when
    the prefix does.  Without a prefix the name starts with [testuser]. *)
Theorem uniqueUsername_differs_with_the_instant (p1 p2 : string) (t1 t2 : Z) :
  (0 <= t1)%Z -> (0 <= t2)%Z ->
  (uniqueUsername (Some p1) t1 = uniqueUsername (Some p2) t2 -> p1 = p2 /\ t1 = t2)
  /\ (t1 <> t2 -> uniqueUsername (Some p1) t1 <> uniqueUsername (Some p1) t2)
  /\ String.prefix p1 (uniqueUsername (Some p1) t1) = true
  /\ (username_chars p1 = true -> username_chars (uniqueUsername (Some p1) t1) = true)
  /\ uniqueUsername None t1 = uniqueUsername (Some "testuser") t1.
Proof.
  intros H1 H2.
  assert (Hinj : forall q1 q2, uniqueUsername (Some q1) t1 = uniqueUsername (Some q2) t2 ->
                               q1 = q2 /\ t1 = t2).
  { intros q1 q2 H. unfold uniqueUsername in H.
    destruct (split_at_last_hyphen q1 q2 _ _ H (proj1 (time_digits t1 H1))
                (proj1 (time_digits t2 H2))) as [Hp Hd].
    split; [exact Hp | now apply Z_to_string_inj]. }
  split; [apply Hinj|]. split; [|split; [|split]].
  - intros Hne H. destruct (Hinj p1 p1 H) as [_ Ht]. contradiction.
  - unfold uniqueUsername. apply prefix_of_append.
  - intros Hp. unfold uniqueUsername. rewrite username_chars_app, Hp. simpl.
    apply (time_digits t1 H1).
  - reflexivity.
Qed.

Lemma uniqueUsername_differs_with_the_instant_witness :
  uniqueUsername (Some "testuser") 1700000000000 <> uniqueUsername (Some "testuser") 1700000000001.
Proof.
  apply (proj1 (proj2 (uniqueUsername_differs_with_the_instant
                         "testuser" "testuser" 1700000000000 1700000000001
                         ltac:(lia) ltac:(lia)))).
  lia.
Defined.

End UsersFacts.
